(** * WasmEdge: the function-call executor and the command-line driver

    A shallow embedding of [lib/executor/helper.cpp] (function entry,
    block arity, branches, instance lookup) and of the argument handling and
    exit codes of [tools/wasmedge/wasmedger.cpp].

    The member functions of [Executor] are computations in a state monad
    over the executor object; what the executor asks of its collaborators
    (store and module lookups, host callables, the fault handler, the
    trampoline) is recorded in a trace, what it writes with [spdlog::error]
    in a log sink.  The stack manager, the store, the instances and the
    metering collector are not part of the two source files: they are
    modelled from the specification, each such definition saying so.

    Conventions.
    - A [std::vector] is a list whose last element is the vector's back:
      [push_back] appends, the top of a stack is the end of the list.
    - [uint32_t] casts of vector sizes are written out ([u32_of_size]); sizes
      themselves ([size_t], never wrapping for a vector) are naturals.
    - Undefined behaviour of the C++ (an unchecked dereference, an erase
      past the beginning of a vector) is the outcome [Undefined]. *)

From Stdlib Require Import ZArith Lia String Ascii.
From stdpp Require Import prelude.

Set Default Proof Using "Type".

(** ** Common: error codes, value types, values *)

(** Modelled from the spec: the enumeration [ErrCode] is missing; these are
    [Success] and the error kinds the executor surfaces. *)
Module ErrCode.
Inductive ErrCode :=
| Success
| Terminated
| CostLimitExceeded
| ExecutionFailed
| MemoryOutOfBounds
| DivideByZero
| IntegerOverflow
| InvalidConversion
| Unreachable
| CallIndirectTypeMismatch
| UninitializedElement
| InstanceNotFound.

#[global] Instance eq_dec : EqDecision ErrCode.
Proof. solve_decision. Defined.
End ErrCode.
Abbreviation ErrCode := ErrCode.ErrCode.

(** [Expect<T>]: a value or an error code. *)
Inductive Expect (T : Type) :=
| Expected (v : T)
| Unexpect (e : ErrCode).
Arguments Expected {T} v.
Arguments Unexpect {T} e.

(** Modelled from the spec: the enumeration [ValType] is missing; values are
    "a tagged variant over {i32, i64, f32, f64, funcref, externref}", and
    [None] is the empty block type. *)
Module ValType.
Inductive ValType :=
| None
| I32
| I64
| F32
| F64
| FuncRef
| ExternRef.

#[global] Instance eq_dec : EqDecision ValType.
Proof. solve_decision. Defined.
End ValType.
Abbreviation ValType := ValType.ValType.

(** Modelled from the spec: [ValVariant] is missing; a value is tagged and
    "uniformly 64 bits wide", "floats are stored in their bit-pattern
    form". *)
Record ValVariant := { ValTag : ValType; ValBits : Z }.

(** Modelled from the spec: [ValueFromType] is missing; locals are
    "zero-initialized per declared value-type". *)
Definition ValueFromType (T : ValType) : ValVariant :=
  {| ValTag := T; ValBits := 0 |}.

(** Modelled from the spec: the default constructor of [ValVariant] is
    missing; this is the content of a fresh result vector ("allocate a result
    vector of length |results|"). *)
Definition ValVariant_default : ValVariant :=
  {| ValTag := ValType.I32; ValBits := 0 |}.

(** [static_cast<uint32_t>(V.size())]. *)
Definition u32_of_size (n : nat) : nat :=
  Z.to_nat (Z.of_nat n mod 4294967296).

(** [uint32_t] addition. *)
Definition u32_add (a b : nat) : nat :=
  Z.to_nat ((Z.of_nat a + Z.of_nat b) mod 4294967296).

(** ** AST: instructions and iterators over an instruction view *)

Inductive BlockType :=
| BlockValType (T : ValType)
| BlockTypeIdx (Idx : nat).

(** Modelled from the spec: [AST::Instruction] is missing; the executor
    reads the block type of the instruction at a loop-body PC only. *)
Record Instruction := { getOpCode : Z; getBlockType : BlockType }.

Definition InstrView := list Instruction.

(** [AST::InstrView::iterator] is a pointer into an instruction view: the view
    and a position in it. *)
Record iterator := { View : InstrView; Pos : Z }.

Definition begin (V : InstrView) : iterator := {| View := V; Pos := 0 |}.

(** [It - N] *)
Definition iterator_sub (It : iterator) (N : Z) : iterator :=
  {| View := View It; Pos := Pos It - N |}.

(** [*It]; nothing when the pointer is outside the view. *)
Definition deref (It : iterator) : option Instruction :=
  if (Pos It <? 0)%Z then None else View It !! Z.to_nat (Pos It).

(** ** Runtime: instances, store, stack manager *)

(** Modelled from the spec: the instance classes are missing; the lookups
    hand out "a pointer/handle to the requested table/memory/global/element/
    data instance", whatever it holds. *)
Record TableInstance := { TabRefs : list Z }.
Record MemoryInstance := { MemData : list Z }.
Record GlobalInstance := { GlobValue : ValVariant }.
Record ElementInstance := { ElemRefs : list Z }.
Record DataInstance := { DataBytes : list Z }.

(** The record shared with compiled code (helper.cpp lines 108-109).
    [Memory] is a raw address (0 is the null pointer); [Globals] stands for
    the array [GlobalsPtr.data()] points to. *)
Record ExecutionContextT := { Memory : Z; Globals : list Z }.

(** A compiled entry symbol is opaque code: given the context, the argument
    buffer and the result buffer it runs to completion from the executor's
    point of view, leaving a fault status ([Success] when it returned) and
    the result buffer.  What it does to memories and globals is outside this
    development. *)
Definition CompiledCode : Type :=
  ExecutionContextT → list ValVariant → list ValVariant →
  ErrCode * list ValVariant.

(** The trampoline of a function type: [Wrapper(Ctx, Symbol, Args, Rets)]. *)
Definition Wrapper : Type :=
  ExecutionContextT → CompiledCode → list ValVariant → list ValVariant →
  ErrCode * list ValVariant.

Record FunctionType := {
  getParamTypes : list ValType;
  getReturnTypes : list ValType;
  getTypeSymbol : option Wrapper
}.

(** Modelled from the spec: the class [HostFunctionBase] is missing; a host
    function is "a cost value, and an opaque callable that accepts the
    current memory handle, an input vector of values, and an output vector
    slot"; the callable reports success or an error and leaves the output
    vector.  What it does to the memory is outside this development. *)
Record HostFunctionBase := {
  getCost : Z;
  run : option MemoryInstance → list ValVariant → list ValVariant →
        Expect unit * list ValVariant
}.

Inductive FunctionKind :=
| NativeFunction (Locals : list (nat * ValType)) (Instrs : InstrView)
| HostFunction (HostFunc : HostFunctionBase)
| CompiledFunction (Symbol : CompiledCode).

Record FunctionInstance := {
  getModuleAddr : nat;
  getFuncType : FunctionType;
  getKind : FunctionKind
}.

Definition isHostFunction (Func : FunctionInstance) : bool :=
  match getKind Func with HostFunction _ => true | _ => false end.

Definition isCompiledFunction (Func : FunctionInstance) : bool :=
  match getKind Func with CompiledFunction _ => true | _ => false end.

(** Modelled from the spec: the class [ModuleInstance] is missing; it
    "holds mappings from local index spaces to store-wide addresses; a list
    of type signatures; and raw pointers to the base of its single memory (or
    null) and its globals array". *)
Record ModuleInstance := {
  FuncTypes : list FunctionType;
  TableAddrs : list nat;
  MemAddrs : list nat;
  GlobalAddrs : list nat;
  ElemAddrs : list nat;
  DataAddrs : list nat;
  MemoryPtr : Z;
  GlobalsPtr : list Z
}.

(** Modelled from the spec: the class [StoreManager] is missing; the store
    is "flat address tables keyed by opaque 32-bit addresses, one per
    resource kind"; "a missing address yields a not-found error". *)
Record StoreManager := {
  Modules : list ModuleInstance;
  Tables : list TableInstance;
  Memories : list MemoryInstance;
  Globs : list GlobalInstance;
  Elements : list ElementInstance;
  Datas : list DataInstance
}.

Module StackManager.

(** Modelled from the spec: the stack manager's [Label] is missing; a label
    is "(arity-on-entry, arity-on-exit, continuation-PC, optional
    loop-body-PC)" and "carries saved stack heights". *)
Record Label := {
  EntryArity : nat;
  ExitArity : nat;
  LabelVStackOff : nat;
  From : iterator;
  Cont : option iterator
}.

(** Modelled from the spec: the stack manager's [Frame] is missing; a frame
    is "(owning-module-address, local-count, return-arity, is-tail-call,
    saved operand-stack height, saved label-stack height, return-PC)"; the
    sentinel frame has "owning-module = nil".  [pushFrame] is not given a PC
    (helper.cpp line 25), [pushLabel] is (lines 40, 99, 150): the return PC
    of a frame is recorded as the continuation of its boundary label, the
    label pushed right after the frame. *)
Record Frame := {
  ModAddr : option nat;
  Locals : nat;
  Arity : nat;
  IsTailCall : bool;
  VStackOff : nat;
  LStackOff : nat
}.

(** Modelled from the spec: the class [StackManager] is missing; "the
    stack manager (operand, label, and frame stacks)". *)
Record StackManager := {
  ValueStack : list ValVariant;
  LabelStack : list Label;
  FrameStack : list Frame
}.

(** Modelled from the spec: the sentinel frame, with "owning-module =
    nil". *)
Definition DummyFrame (SM : StackManager) : Frame :=
  {| ModAddr := None; Locals := 0; Arity := 0; IsTailCall := false;
     VStackOff := length (ValueStack SM);
     LStackOff := length (LabelStack SM) |}.

Definition isDummy (F : Frame) : bool :=
  match ModAddr F with None => true | Some _ => false end.

(** Modelled from the spec: [StackManager::pushDummyFrame] is missing; "the
    bottom of the stack holds a distinguished sentinel frame used before any
    user call". *)
Definition pushDummyFrame (SM : StackManager) : StackManager :=
  {| ValueStack := ValueStack SM; LabelStack := LabelStack SM;
     FrameStack := FrameStack SM ++ [DummyFrame SM] |}.

Definition init : StackManager :=
  pushDummyFrame {| ValueStack := []; LabelStack := []; FrameStack := [] |}.

(** Modelled from the spec: [StackManager::push] is missing; the value
    becomes the top of the operand stack. *)
Definition push (V : ValVariant) (SM : StackManager) : StackManager :=
  {| ValueStack := ValueStack SM ++ [V]; LabelStack := LabelStack SM;
     FrameStack := FrameStack SM |}.

(** Modelled from the spec: [StackManager::popTopN] is missing; "pop the top
    |params| operand values into an argument vector (order preserved)".
    Undefined with fewer values on the stack. *)
Definition popTopN (N : nat) (SM : StackManager)
  : option (list ValVariant * StackManager) :=
  let H := length (ValueStack SM) in
  if decide (N ≤ H) then
    Some (drop (H - N) (ValueStack SM),
          {| ValueStack := take (H - N) (ValueStack SM);
             LabelStack := LabelStack SM; FrameStack := FrameStack SM |})
  else None.

(** Modelled from the spec: [StackManager::pushFrame] is missing; "push a
    frame recording the callee's owning module, |params|, |results|, and the
    tail-call flag".  The saved operand-stack height is the height beneath
    the arguments, which "are retained across the push".  With the tail-call
    flag "the frame's saved operand-stack height and saved label-stack height
    are inherited from the caller (not the top of stack)"; the call "reuses
    the caller's frame budget" and afterwards "the frame stack still contains
    exactly one user frame plus the sentinel": the caller's frame is
    rewritten in place.  The operand and label stacks are not touched. *)
Definition pushFrame (ModuleAddr : nat) (Args Rets : nat) (TailCall : bool)
    (SM : StackManager) : StackManager :=
  let Fresh := {| ModAddr := Some ModuleAddr; Locals := Args; Arity := Rets;
                  IsTailCall := TailCall;
                  VStackOff := length (ValueStack SM) - Args;
                  LStackOff := length (LabelStack SM) |} in
  let Frames :=
    match TailCall, last (FrameStack SM) with
    | true, Some Caller =>
        removelast (FrameStack SM) ++
        [{| ModAddr := Some ModuleAddr; Locals := Args; Arity := Rets;
            IsTailCall := true;
            VStackOff := VStackOff Caller; LStackOff := LStackOff Caller |}]
    | _, _ => FrameStack SM ++ [Fresh]
    end in
  {| ValueStack := ValueStack SM; LabelStack := LabelStack SM;
     FrameStack := Frames |}.

(** Modelled from the spec: [StackManager::pushLabel] is missing; the label
    records both arities, the operand height beneath its entry values (its
    saved height), the continuation and the loop-body PC. *)
Definition pushLabel (LocalNum ArityN : nat) (FromIt : iterator)
    (ContIt : option iterator) (SM : StackManager) : StackManager :=
  {| ValueStack := ValueStack SM;
     LabelStack := LabelStack SM ++
       [{| EntryArity := LocalNum; ExitArity := ArityN;
           LabelVStackOff := length (ValueStack SM) - LocalNum;
           From := FromIt; Cont := ContIt |}];
     FrameStack := FrameStack SM |}.

(** Modelled from the spec: [StackManager::getLabelWithCount] is missing;
    "the label at position depth from the top of the label stack".
    Undefined when there is none. *)
Definition getLabelWithCount (Cnt : nat) (SM : StackManager) : option Label :=
  let N := length (LabelStack SM) in
  if decide (Cnt < N) then LabelStack SM !! (N - 1 - Cnt) else None.

(** Modelled from the spec: the operand-stack part of
    [StackManager::popLabel] and [StackManager::popFrame], which are missing;
    "preserve the top k operand-stack values where k is the exit arity of the
    target label for a non-loop, or the entry arity for a loop; discard all
    values between those and the label's saved height; then push the
    preserved values back on top".  Undefined with fewer than k values above
    the saved height. *)
Definition keptArity (L : Label) : nat :=
  match Cont L with Some _ => EntryArity L | None => ExitArity L end.

Definition eraseValues (Base Keep : nat) (Vs : list ValVariant)
  : option (list ValVariant) :=
  if decide (Base + Keep ≤ length Vs)
  then Some (take Base Vs ++ drop (length Vs - Keep) Vs)
  else None.

(** Modelled from the spec: [StackManager::popLabel] is missing; "pop
    exactly depth + 1 labels"; the result is "the popped label's post-pop
    PC", the continuation of the last label popped. *)
Definition popLabel (Cnt : nat) (SM : StackManager)
  : option (iterator * StackManager) :=
  match Cnt with
  | 0 => None
  | S Cnt' =>
      L ← getLabelWithCount Cnt' SM;
      Vs ← eraseValues (LabelVStackOff L) (keptArity L) (ValueStack SM);
      Some (From L,
            {| ValueStack := Vs;
               LabelStack :=
                 take (length (LabelStack SM) - Cnt) (LabelStack SM);
               FrameStack := FrameStack SM |})
  end.

(** Modelled from the spec: [StackManager::popFrame] is missing; the return
    "free[s] the operand-stack values above the saved height (dropping any in
    excess of the declared arity) and restore[s] the label stack"; the stack
    manager "pops the frame and returns the frame's recorded return_PC" "on
    label pop of a boundary label": the boundary label is the topmost label
    then, and its continuation is what "host and compiled calls record
    exactly" as return PC.  The label stack goes back to the frame's saved
    height, which for a tail call is the caller's ("the caller's frame is
    simultaneously retired"). *)
Definition popFrame (SM : StackManager) : option (iterator * StackManager) :=
  F ← last (FrameStack SM);
  Boundary ← last (LabelStack SM);
  Vs ← eraseValues (VStackOff F) (Arity F) (ValueStack SM);
  Some (From Boundary,
        {| ValueStack := Vs;
           LabelStack := take (LStackOff F) (LabelStack SM);
           FrameStack := removelast (FrameStack SM) |}).

(** Modelled from the spec: [StackManager::isTopDummyFrame] is missing;
    whether "the topmost frame is the sentinel".  Undefined without a
    frame. *)
Definition isTopDummyFrame (SM : StackManager) : option bool :=
  isDummy <$> last (FrameStack SM).

(** Modelled from the spec: [StackManager::getModuleAddr] is missing; "the
    topmost frame's module address", which the sentinel does not have. *)
Definition getModuleAddr (SM : StackManager) : option nat :=
  last (FrameStack SM) ≫= ModAddr.

End StackManager.

(** Modelled from the spec: the class [Statistics] is missing; the metering
    collector "exposes charge(cost) → bool (false on overflow), stop_wasm(),
    start_wasm(), stop_host(), start_host()".  What a refused charge leaves
    in the collector is not said; here it leaves it as it was. *)
Module Statistics.

Record Statistics := {
  CostLimit : Z;
  CostSum : Z;
  WasmTimer : bool;
  HostTimer : bool
}.

Definition addCost (Cost : Z) (St : Statistics) : bool * Statistics :=
  if (CostLimit St <? CostSum St + Cost)%Z then (false, St)
  else (true, {| CostLimit := CostLimit St; CostSum := (CostSum St + Cost)%Z;
                 WasmTimer := WasmTimer St; HostTimer := HostTimer St |}).

Definition setWasmTimer (B : bool) (St : Statistics) : Statistics :=
  {| CostLimit := CostLimit St; CostSum := CostSum St;
     WasmTimer := B; HostTimer := HostTimer St |}.

Definition setHostTimer (B : bool) (St : Statistics) : Statistics :=
  {| CostLimit := CostLimit St; CostSum := CostSum St;
     WasmTimer := WasmTimer St; HostTimer := B |}.

Definition stopRecordWasm := setWasmTimer false.
Definition startRecordWasm := setWasmTimer true.
Definition stopRecordHost := setHostTimer false.
Definition startRecordHost := setHostTimer true.

End Statistics.

(** ** Executor *)

Module Executor.

Inductive InstKind :=
| KModule | KFuncType | KTable | KMemory | KGlobal | KElement | KData.

(** What the executor asks of its collaborators, in program order. *)
Inductive Event :=
| EvStoreGet (K : InstKind) (Addr : nat)
| EvModuleIndex (K : InstKind) (Idx : nat)
| EvHostRun (MemInst : option MemoryInstance) (Args : list ValVariant)
| EvFaultProtect
| EvWrapper (Ctx : ExecutionContextT) (Args : list ValVariant).

(** The executor object: its stack manager, the optional collector, the
    context shared with compiled code, the process-wide store pointer, the
    ERROR-level log sink and the calls made so far (oldest first). *)
Record Executor := {
  StackMgr : StackManager.StackManager;
  Stat : option Statistics.Statistics;
  ExecutionContext : ExecutionContextT;
  CurrentStore : option StoreManager;
  LogSink : list ErrCode;
  Trace : list Event
}.

Definition setStackMgr (SM : StackManager.StackManager) (E : Executor)
  : Executor :=
  {| StackMgr := SM; Stat := Stat E; ExecutionContext := ExecutionContext E;
     CurrentStore := CurrentStore E; LogSink := LogSink E; Trace := Trace E |}.

Definition setStat (St : option Statistics.Statistics) (E : Executor)
  : Executor :=
  {| StackMgr := StackMgr E; Stat := St; ExecutionContext := ExecutionContext E;
     CurrentStore := CurrentStore E; LogSink := LogSink E; Trace := Trace E |}.

Definition setExecutionContext (C : ExecutionContextT) (E : Executor)
  : Executor :=
  {| StackMgr := StackMgr E; Stat := Stat E; ExecutionContext := C;
     CurrentStore := CurrentStore E; LogSink := LogSink E; Trace := Trace E |}.

Definition setCurrentStore (S : StoreManager) (E : Executor) : Executor :=
  {| StackMgr := StackMgr E; Stat := Stat E;
     ExecutionContext := ExecutionContext E;
     CurrentStore := Some S; LogSink := LogSink E; Trace := Trace E |}.

Definition addLog (C : ErrCode) (E : Executor) : Executor :=
  {| StackMgr := StackMgr E; Stat := Stat E;
     ExecutionContext := ExecutionContext E; CurrentStore := CurrentStore E;
     LogSink := LogSink E ++ [C]; Trace := Trace E |}.

Definition addEvent (Ev : Event) (E : Executor) : Executor :=
  {| StackMgr := StackMgr E; Stat := Stat E;
     ExecutionContext := ExecutionContext E; CurrentStore := CurrentStore E;
     LogSink := LogSink E; Trace := Trace E ++ [Ev] |}.

(** The three stacks of the executor's stack manager. *)
Abbreviation operands E := (StackManager.ValueStack (StackMgr E)).
Abbreviation labels E := (StackManager.LabelStack (StackMgr E)).
Abbreviation frames E := (StackManager.FrameStack (StackMgr E)).

(** *** The monad of member functions: state passing, with [Undefined] for
    undefined behaviour. *)

Inductive Outcome (A : Type) :=
| Done (v : A) (E : Executor)
| Undefined.
Arguments Done {A} v E.
Arguments Undefined {A}.

Definition M (A : Type) : Type := Executor → Outcome A.

Definition ret {A} (v : A) : M A := λ E, Done v E.

Definition bind {A B} (m : M A) (k : A → M B) : M B :=
  λ E, match m E with
       | Done v E' => k v E'
       | Undefined => Undefined
       end.

Declare Scope exec_scope.
Delimit Scope exec_scope with exec.
Bind Scope exec_scope with M.
Notation "'let*' x := m 'in' k" := (bind m (λ x, k))
  (at level 10, x name, m at level 100, k at level 200,
   format "'[v' 'let*'  x  :=  m  'in' '/' k ']'") : exec_scope.
Notation "m >> k" := (bind m (λ _, k))
  (at level 60, right associativity) : exec_scope.
Local Open Scope exec_scope.

Definition undefined {A} : M A := λ _, Undefined.

(** An unchecked dereference ([*Res], [**Res]). *)
Definition unchecked {A} (o : option A) : M A :=
  match o with Some v => ret v | None => undefined end.

Definition modify (f : Executor → Executor) : M unit := λ E, Done tt (f E).
Definition gets {A} (f : Executor → A) : M A := λ E, Done (f E) E.

(** A stack-manager call that only updates the stacks. *)
Definition onStack (f : StackManager.StackManager → StackManager.StackManager)
  : M unit :=
  modify (λ E, setStackMgr (f (StackMgr E)) E).

(** An unsafe stack-manager call with a result. *)
Definition popStack {A}
    (f : StackManager.StackManager → option (A * StackManager.StackManager))
  : M A :=
  λ E, match f (StackMgr E) with
       | Some (v, SM) => Done v (setStackMgr SM E)
       | None => Undefined
       end.

(** An unsafe stack-manager query. *)
Definition askStack {A} (f : StackManager.StackManager → option A) : M A :=
  λ E, match f (StackMgr E) with
       | Some v => Done v E
       | None => Undefined
       end.

(** [spdlog::error(Code)] *)
Definition spdlog_error (C : ErrCode) : M unit := modify (addLog C).

Definition emit (Ev : Event) : M unit := modify (addEvent Ev).

(** [Stat->f()] for a collector known to be attached. *)
Definition onStat (f : Statistics.Statistics → Statistics.Statistics)
  : M unit :=
  λ E, match Stat E with
       | Some St => Done tt (setStat (Some (f St)) E)
       | None => Undefined
       end.

(** [Stat->addCost(Cost)] *)
Definition Stat_addCost (Cost : Z) : M bool :=
  λ E, match Stat E with
       | Some St => let '(Charged, St') := Statistics.addCost Cost St in
                    Done Charged (setStat (Some St') E)
       | None => Undefined
       end.

(** The invocations of host callables in a trace: memory handle and
    argument vector of each. *)
Definition hostRuns (T : list Event)
  : list (option MemoryInstance * list ValVariant) :=
  omap (λ Ev, match Ev with
              | EvHostRun MemInst Args => Some (MemInst, Args)
              | _ => None
              end) T.

(** *** Store and module lookups, each one recorded *)

Definition StoreMgr_getModule (S : StoreManager) (Addr : nat)
  : M (option ModuleInstance) :=
  emit (EvStoreGet KModule Addr) >> ret (Modules S !! Addr).
Definition StoreMgr_getTable (S : StoreManager) (Addr : nat)
  : M (option TableInstance) :=
  emit (EvStoreGet KTable Addr) >> ret (Tables S !! Addr).
Definition StoreMgr_getMemory (S : StoreManager) (Addr : nat)
  : M (option MemoryInstance) :=
  emit (EvStoreGet KMemory Addr) >> ret (Memories S !! Addr).
Definition StoreMgr_getGlobal (S : StoreManager) (Addr : nat)
  : M (option GlobalInstance) :=
  emit (EvStoreGet KGlobal Addr) >> ret (Globs S !! Addr).
Definition StoreMgr_getElement (S : StoreManager) (Addr : nat)
  : M (option ElementInstance) :=
  emit (EvStoreGet KElement Addr) >> ret (Elements S !! Addr).
Definition StoreMgr_getData (S : StoreManager) (Addr : nat)
  : M (option DataInstance) :=
  emit (EvStoreGet KData Addr) >> ret (Datas S !! Addr).

Definition ModInst_getFuncType (Mod : ModuleInstance) (Idx : nat)
  : M (option FunctionType) :=
  emit (EvModuleIndex KFuncType Idx) >> ret (FuncTypes Mod !! Idx).
Definition ModInst_getTableAddr (Mod : ModuleInstance) (Idx : nat)
  : M (option nat) :=
  emit (EvModuleIndex KTable Idx) >> ret (TableAddrs Mod !! Idx).
Definition ModInst_getMemAddr (Mod : ModuleInstance) (Idx : nat)
  : M (option nat) :=
  emit (EvModuleIndex KMemory Idx) >> ret (MemAddrs Mod !! Idx).
Definition ModInst_getGlobalAddr (Mod : ModuleInstance) (Idx : nat)
  : M (option nat) :=
  emit (EvModuleIndex KGlobal Idx) >> ret (GlobalAddrs Mod !! Idx).
Definition ModInst_getElemAddr (Mod : ModuleInstance) (Idx : nat)
  : M (option nat) :=
  emit (EvModuleIndex KElement Idx) >> ret (ElemAddrs Mod !! Idx).
Definition ModInst_getDataAddr (Mod : ModuleInstance) (Idx : nat)
  : M (option nat) :=
  emit (EvModuleIndex KData Idx) >> ret (DataAddrs Mod !! Idx).

(** [*StoreMgr.getModule(StackMgr.getModuleAddr())] *)
Definition currentModule (S : StoreManager) : M ModuleInstance :=
  let* Addr := askStack StackManager.getModuleAddr in
  let* Res := StoreMgr_getModule S Addr in
  unchecked Res.

(** *** helper.cpp, lines 197-298: instance lookup through the active frame *)

Definition getTabInstByIdx (S : StoreManager) (Idx : nat)
  : M (option TableInstance) :=
  let* Dummy := askStack StackManager.isTopDummyFrame in
  if Dummy then ret None else
  let* ModInst := currentModule S in
  let* Res := ModInst_getTableAddr ModInst Idx in
  match Res with
  | Some TabAddr => StoreMgr_getTable S TabAddr
  | None => ret None
  end.

Definition getMemInstByIdx (S : StoreManager) (Idx : nat)
  : M (option MemoryInstance) :=
  let* Dummy := askStack StackManager.isTopDummyFrame in
  if Dummy then ret None else
  let* ModInst := currentModule S in
  let* Res := ModInst_getMemAddr ModInst Idx in
  match Res with
  | Some MemAddr => StoreMgr_getMemory S MemAddr
  | None => ret None
  end.

Definition getGlobInstByIdx (S : StoreManager) (Idx : nat)
  : M (option GlobalInstance) :=
  let* Dummy := askStack StackManager.isTopDummyFrame in
  if Dummy then ret None else
  let* ModInst := currentModule S in
  let* Res := ModInst_getGlobalAddr ModInst Idx in
  match Res with
  | Some GlobAddr => StoreMgr_getGlobal S GlobAddr
  | None => ret None
  end.

Definition getElemInstByIdx (S : StoreManager) (Idx : nat)
  : M (option ElementInstance) :=
  let* Dummy := askStack StackManager.isTopDummyFrame in
  if Dummy then ret None else
  let* ModInst := currentModule S in
  let* Res := ModInst_getElemAddr ModInst Idx in
  match Res with
  | Some ElemAddr => StoreMgr_getElement S ElemAddr
  | None => ret None
  end.

Definition getDataInstByIdx (S : StoreManager) (Idx : nat)
  : M (option DataInstance) :=
  let* Dummy := askStack StackManager.isTopDummyFrame in
  if Dummy then ret None else
  let* ModInst := currentModule S in
  let* Res := ModInst_getDataAddr ModInst Idx in
  match Res with
  | Some DataAddr => StoreMgr_getData S DataAddr
  | None => ret None
  end.

(** *** helper.cpp, lines 11-156: function entry *)

(** Lines 82-84 and 127-129: the results go back to the stack in order. *)
Definition pushAll (Vs : list ValVariant) : M unit :=
  onStack (λ SM, foldl (λ SM' V, StackManager.push V SM') SM Vs).

(** Lines 138-142: one value per declared local. *)
Definition pushLocals (Defs : list (nat * ValType)) : M unit :=
  onStack (λ SM,
    foldl (λ SM' Def,
             Nat.iter Def.1 (StackManager.push (ValueFromType Def.2)) SM')
          SM Defs).

(** Lines 61-88: run the host function and return through the frame. *)
Definition runHostFunction (HostFunc : HostFunctionBase)
    (MemoryInst : option MemoryInstance) (ArgsN RetsN : nat)
  : M (Expect iterator) :=
  let* Args := popStack (StackManager.popTopN ArgsN) in
  let Rets := replicate RetsN ValVariant_default in
  emit (EvHostRun MemoryInst Args) >>
  let '(Ret, Rets') := run HostFunc MemoryInst Args Rets in
  let* Collector := gets Stat in
  match Collector with
  | Some _ =>
      onStat Statistics.stopRecordHost >> onStat Statistics.startRecordWasm
  | None => ret tt
  end >>
  match Ret with
  | Unexpect Err =>
      (if decide (Err = ErrCode.ExecutionFailed)
       then spdlog_error Err else ret tt) >>
      ret (Unexpect Err)
  | Expected _ =>
      pushAll Rets' >>
      let* PC := popStack StackManager.popFrame in
      ret (Expected PC)
  end.

(** Lines 101-133: run the compiled function under the fault handler.
    [PREPARE_FAULT] yields [Success] when the region is entered and the
    fault status when compiled code leaves it by a fault; the status the
    trampoline leaves stands for both. *)
Definition runCompiledFunction (S : StoreManager) (Func : FunctionInstance)
    (Symbol : CompiledCode) (ArgsN RetsN : nat) : M (Expect iterator) :=
  let* Args := popStack (StackManager.popTopN ArgsN) in
  let Rets := replicate RetsN ValVariant_default in
  modify (setCurrentStore S) >>
  let* Res := StoreMgr_getModule S (getModuleAddr Func) in
  let* ModInst := unchecked Res in
  modify (setExecutionContext
            {| Memory := MemoryPtr ModInst; Globals := GlobalsPtr ModInst |}) >>
  emit EvFaultProtect >>
  let* Wrap := unchecked (getTypeSymbol (getFuncType Func)) in
  let* Ctx := gets ExecutionContext in
  emit (EvWrapper Ctx Args) >>
  let '(Err, Rets') := Wrap Ctx Symbol Args Rets in
  if decide (Err ≠ ErrCode.Success) then
    (if decide (Err ≠ ErrCode.Terminated)
     then spdlog_error Err else ret tt) >>
    ret (Unexpect Err)
  else
    pushAll Rets' >>
    let* PC := popStack StackManager.popFrame in
    ret (Expected PC).

Definition enterFunction (S : StoreManager) (Func : FunctionInstance)
    (BackPos : iterator) (IsTailCall : bool) : M (Expect iterator) :=
  let FuncType := getFuncType Func in
  let ArgsN := u32_of_size (length (getParamTypes FuncType)) in
  let RetsN := u32_of_size (length (getReturnTypes FuncType)) in
  onStack
    (StackManager.pushFrame (getModuleAddr Func) ArgsN RetsN IsTailCall) >>
  match getKind Func with
  | HostFunction HostFunc =>
      onStack (StackManager.pushLabel 0 RetsN BackPos None) >>
      let* MemoryInst := getMemInstByIdx S 0 in
      let* Collector := gets Stat in
      match Collector with
      | Some _ =>
          let* Charged := Stat_addCost (getCost HostFunc) in
          if negb Charged then
            spdlog_error ErrCode.CostLimitExceeded >>
            ret (Unexpect ErrCode.CostLimitExceeded)
          else
            onStat Statistics.stopRecordWasm >>
            onStat Statistics.startRecordHost >>
            runHostFunction HostFunc MemoryInst ArgsN RetsN
      | None => runHostFunction HostFunc MemoryInst ArgsN RetsN
      end
  | CompiledFunction Symbol =>
      onStack (StackManager.pushLabel 0 RetsN BackPos None) >>
      runCompiledFunction S Func Symbol ArgsN RetsN
  | NativeFunction Defs Instrs =>
      pushLocals Defs >>
      onStack (StackManager.pushLabel 0 RetsN (iterator_sub BackPos 1) None) >>
      ret (Expected (begin Instrs))
  end.

(** *** helper.cpp, lines 158-172 *)

Definition getBlockArity (S : StoreManager) (BType : BlockType)
  : M (nat * nat) :=
  match BType with
  | BlockValType T =>
      ret (0, if decide (T = ValType.None) then 0 else 1)
  | BlockTypeIdx Idx =>
      let* ModInst := currentModule S in
      let* Res := ModInst_getFuncType ModInst Idx in
      let* FuncType := unchecked Res in
      ret (u32_of_size (length (getParamTypes FuncType)),
           u32_of_size (length (getReturnTypes FuncType)))
  end.

(** *** helper.cpp, lines 174-195.  [PC] is passed by reference: the new
    program counter is returned next to the (always successful) result. *)

Definition branchToLabel (S : StoreManager) (Cnt : nat) (PC : iterator)
  : M (Expect unit * iterator) :=
  let* L := askStack (StackManager.getLabelWithCount Cnt) in
  let ContIt := StackManager.Cont L in
  let* PC1 := popStack (StackManager.popLabel (u32_add Cnt 1)) in
  match ContIt with
  | Some LoopIt =>
      let* Instr := unchecked (deref LoopIt) in
      let* BlockSig := getBlockArity S (getBlockType Instr) in
      onStack
        (StackManager.pushLabel BlockSig.1 BlockSig.1 PC1 (Some LoopIt)) >>
      ret (Expected tt, LoopIt)
  | None => ret (Expected tt, PC1)
  end.

(** *** What a call leaves behind *)

(** The executor after the calls [Evs] to its collaborators, everything
    else as it was. *)
Definition traced (Evs : list Event) (E : Executor) : Executor :=
  foldl (λ E' Ev, addEvent Ev E') E Evs.

(** The calls of one instance lookup (lines 197-298) through a frame of
    the module at [ModuleAddr]: the module, its index space, and the store's
    table of the kind when the index is mapped to [Addr]. *)
Definition lookupEvents (K : InstKind) (ModuleAddr Idx : nat)
    (Addr : option nat) : list Event :=
  [EvStoreGet KModule ModuleAddr; EvModuleIndex K Idx] ++
  match Addr with Some A => [EvStoreGet K A] | None => [] end.

End Executor.

(** ** The command-line driver (tools/wasmedge/wasmedger.cpp) *)

Module Driver.

Definition EXIT_SUCCESS : Z := 0.
Definition EXIT_FAILURE : Z := 1.

(** *** [std::stol], [std::stoll]: leading white space, an optional sign,
    decimal digits; [None] is the exception thrown when there is no digit
    or the value is out of range. *)

Definition isspace (c : ascii) : bool :=
  let n := N_of_ascii c in
  ((n =? 32) || ((9 <=? n) && (n <=? 13)))%N.

Definition digitOf (c : ascii) : option Z :=
  let n := N_of_ascii c in
  if ((48 <=? n) && (n <=? 57))%N then Some (Z.of_N n - 48)%Z else None.

Fixpoint skipSpace (s : string) : string :=
  match s with
  | String c r => if isspace c then skipSpace r else s
  | EmptyString => s
  end.

Fixpoint readDigits (acc : Z) (s : string) : Z :=
  match s with
  | String c r =>
      match digitOf c with
      | Some d => readDigits (acc * 10 + d)%Z r
      | None => acc
      end
  | EmptyString => acc
  end.

Definition startsWithDigit (s : string) : bool :=
  match s with
  | String c _ => bool_decide (is_Some (digitOf c))
  | EmptyString => false
  end.

Definition parseInteger (s : string) : option Z :=
  let s1 := skipSpace s in
  let '(Negative, s2) :=
    match s1 with
    | String c r =>
        if Ascii.eqb c "-" then (true, r)
        else if Ascii.eqb c "+" then (false, r)
        else (false, s1)
    | EmptyString => (false, s1)
    end in
  if startsWithDigit s2
  then Some (if Negative : bool then - readDigits 0 s2 else readDigits 0 s2)%Z
  else None.

Definition inRange (lo hi v : Z) : option Z :=
  if ((lo <=? v) && (v <=? hi))%Z then Some v else None.

(** [long long] is 64 bits wide. *)
Definition stoll (s : string) : option Z :=
  parseInteger s ≫= inRange (-9223372036854775808) 9223372036854775807.

(** [long] is 64 bits wide on the LP64 targets of the tool. *)
Definition stol (s : string) : option Z :=
  parseInteger s ≫= inRange (-9223372036854775808) 9223372036854775807.

(** Conversions to the unsigned types the values are stored in. *)
Definition to_uint32 (v : Z) : Z := (v mod 4294967296)%Z.
Definition to_uint64 (v : Z) : Z := (v mod 18446744073709551616)%Z.

Definition mkVal (T : ValType) (Bits : Z) : ValVariant :=
  {| ValTag := T; ValBits := Bits |}.

(** [Runtime::Instance::FType] *)
Record FType := { Params : list ValType; Returns : list ValType }.

Record CommandLine := {
  ParseOk : bool;
  isVersion : bool;
  SoName : string;
  Args : list string;
  Reactor : bool
}.

(** The classes [VM::VM] and [Host::WasiModule] are missing: the driver is
    parametric in the virtual machine with its WASI environment, as it uses
    it.  Each call yields a result and the machine afterwards;
    [getExitCode] is [WasiMod->getEnv().getExitCode()]. *)
Record VMOps (VM : Type) := {
  runWasmFile : VM → string → string → Expect (list ValVariant) * VM;
  loadWasm : VM → string → Expect unit * VM;
  validate : VM → Expect unit * VM;
  instantiate : VM → Expect unit * VM;
  getFunctionList : VM → list (string * FType);
  execute : VM → string → list ValVariant → list ValType →
            Expect (list ValVariant) * VM;
  getExitCode : VM → Z
}.
Arguments runWasmFile {VM}.
Arguments loadWasm {VM}.
Arguments validate {VM}.
Arguments instantiate {VM}.
Arguments getFunctionList {VM}.
Arguments execute {VM}.
Arguments getExitCode {VM}.

Section Main.

(** [std::stof] and [std::stod] give the bit pattern of the parsed
    number ([None]: an exception); [absolute] is
    [std::filesystem::absolute]. *)
Variables (stof stod : string → option Z).
Variable absolute : string → string.
Context {VM : Type} (Ops : VMOps VM).

(** Lines 177-208: one argument per declared parameter, while there are
    arguments left. *)
Fixpoint typedArgs (Ps : list ValType) (Rest : list string)
  : option (list ValVariant * list ValType) :=
  match Ps, Rest with
  | T :: Ps', A :: Rest' =>
      match T with
      | ValType.I32 =>
          Value ← stol A;
          '(Vs, Ts) ← typedArgs Ps' Rest';
          Some (mkVal ValType.I32 (to_uint32 Value) :: Vs, ValType.I32 :: Ts)
      | ValType.I64 =>
          Value ← stoll A;
          '(Vs, Ts) ← typedArgs Ps' Rest';
          Some (mkVal ValType.I64 (to_uint64 Value) :: Vs, ValType.I64 :: Ts)
      | ValType.F32 =>
          Value ← stof A;
          '(Vs, Ts) ← typedArgs Ps' Rest';
          Some (mkVal ValType.F32 Value :: Vs, ValType.F32 :: Ts)
      | ValType.F64 =>
          Value ← stod A;
          '(Vs, Ts) ← typedArgs Ps' Rest';
          Some (mkVal ValType.F64 Value :: Vs, ValType.F64 :: Ts)
      | _ => typedArgs Ps' Rest'
      end
  | _, _ => Some ([], [])
  end.

(** Lines 209-216: the arguments past the declared parameters. *)
Fixpoint extraArgs (Extra : list string)
  : option (list ValVariant * list ValType) :=
  match Extra with
  | [] => Some ([], [])
  | A :: Extra' =>
      Value ← stoll A;
      '(Vs, Ts) ← extraArgs Extra';
      Some (mkVal ValType.I64 (to_uint64 Value) :: Vs, ValType.F64 :: Ts)
  end.

(** [FuncArgs] and [FuncArgTypes] as they are when [VM.execute] is
    called; [Arguments] is [Args.value()], the function name first. *)
Definition reactorArgs (Ps : list ValType) (Arguments : list string)
  : option (list ValVariant * list ValType) :=
  '(Vs1, Ts1) ← typedArgs Ps (drop 1 Arguments);
  '(Vs2, Ts2) ← extraArgs (drop (length Ps + 1) Arguments);
  Some (Vs1 ++ Vs2, Ts1 ++ Ts2).

(** Lines 158-167. *)
Definition scanFunctionList (InitFunc FuncName : string)
    (L : list (string * FType)) : bool * FType :=
  foldl (λ Acc Func,
           if String.eqb Func.1 InitFunc then (true, Acc.2)
           else if String.eqb Func.1 FuncName then (Acc.1, Func.2)
           else Acc)
        (false, {| Params := []; Returns := [] |}) L.

(** Lines 129-136. *)
Definition commandMode (InputPath : string) (V : VM) : Z :=
  let '(Result, V1) := runWasmFile Ops V InputPath "_start" in
  match Result with
  | Expected _ => getExitCode Ops V1
  | Unexpect Err =>
      if decide (Err = ErrCode.Terminated) then getExitCode Ops V1
      else EXIT_FAILURE
  end.

(** Lines 138-243; the printing of the results is left out.  [None]: the
    program ends by an uncaught exception. *)
Definition reactorMode (CL : CommandLine) (InputPath : string) (V : VM)
  : option Z :=
  match Args CL with
  | [] => Some EXIT_FAILURE
  | FuncName :: _ =>
      let InitFunc := "_initialize"%string in
      match loadWasm Ops V InputPath with
      | (Unexpect _, _) => Some EXIT_FAILURE
      | (Expected _, V1) =>
      match validate Ops V1 with
      | (Unexpect _, _) => Some EXIT_FAILURE
      | (Expected _, V2) =>
      match instantiate Ops V2 with
      | (Unexpect _, _) => Some EXIT_FAILURE
      | (Expected _, V3) =>
          let '(HasInit, FuncType) :=
            scanFunctionList InitFunc FuncName (getFunctionList Ops V3) in
          let afterInit :=
            if HasInit : bool then
              match execute Ops V3 InitFunc [] [] with
              | (Unexpect _, _) => None
              | (Expected _, V4) => Some V4
              end
            else Some V3 in
          match afterInit with
          | None => Some EXIT_FAILURE
          | Some V4 =>
              '(FuncArgs, FuncArgTypes) ←
                reactorArgs (Params FuncType) (Args CL);
              match execute Ops V4 FuncName FuncArgs FuncArgTypes with
              | (Expected _, _) => Some EXIT_SUCCESS
              | (Unexpect _, _) => Some EXIT_FAILURE
              end
          end
      end end end
  end.

(** [main] from the parsing of the command line on. *)
Definition main (CL : CommandLine) (V : VM) : option Z :=
  if negb (ParseOk CL) then Some EXIT_FAILURE
  else if isVersion CL then Some EXIT_SUCCESS
  else
    let InputPath := absolute (SoName CL) in
    if negb (Reactor CL) then Some (commandMode InputPath V)
    else reactorMode CL InputPath V.

End Main.

(** *** Lines 90-105: the configuration the virtual machine is built
    from.  The class [Configure] is missing: the driver is parametric in it,
    as it uses it. *)

Module Proposal.
Inductive t := BulkMemoryOperations | ReferenceTypes | SIMD.
End Proposal.

Module HostRegistration.
Inductive t := Wasi | WasmEdge_Process.
End HostRegistration.

Record ConfigureOps (C : Type) := {
  removeProposal : Proposal.t → C → C;
  addProposal : Proposal.t → C → C;
  setMaxMemoryPage : Z → C → C;
  addHostRegistration : HostRegistration.t → C → C
}.
Arguments removeProposal {C}.
Arguments addProposal {C}.
Arguments setMaxMemoryPage {C}.
Arguments addHostRegistration {C}.

(** The values of the feature options after parsing. *)
Record Features := {
  BulkMemoryOperations : bool;
  ReferenceTypes : bool;
  SIMD : bool;
  All : bool;
  MemLim : list Z
}.

Definition configure {C : Type} (Ops : ConfigureOps C) (O : Features)
    (Conf : C) : C :=
  let Conf1 :=
    if BulkMemoryOperations O
    then removeProposal Ops Proposal.BulkMemoryOperations Conf else Conf in
  let Conf2 :=
    if ReferenceTypes O
    then removeProposal Ops Proposal.ReferenceTypes Conf1 else Conf1 in
  let Conf3 := if SIMD O then addProposal Ops Proposal.SIMD Conf2 else Conf2 in
  let Conf4 := if All O then addProposal Ops Proposal.SIMD Conf3 else Conf3 in
  let Conf5 :=
    if 0 <? length (MemLim O)
    then setMaxMemoryPage Ops (List.last (MemLim O) 0%Z) Conf4 else Conf4 in
  addHostRegistration Ops HostRegistration.WasmEdge_Process
    (addHostRegistration Ops HostRegistration.Wasi Conf5).

(** *** Lines 219-238: the lines written to [std::cout] after a successful
    call, one per result of a numeric declared type; the access to element
    [I] of the result vector is not checked against its size. *)

Inductive Printed :=
| PrintU32 (V : Z)
| PrintU64 (V : Z)
| PrintF32 (Bits : Z)
| PrintF64 (Bits : Z).

Fixpoint printResults (Returns : list ValType) (I : nat)
    (Result : list ValVariant) : option (list Printed) :=
  match Returns with
  | [] => Some []
  | T :: Returns' =>
      Line ←
        match T with
        | ValType.I32 =>
            V ← Result !! I; Some [PrintU32 (to_uint32 (ValBits V))]
        | ValType.I64 =>
            V ← Result !! I; Some [PrintU64 (to_uint64 (ValBits V))]
        | ValType.F32 =>
            V ← Result !! I; Some [PrintF32 (to_uint32 (ValBits V))]
        | ValType.F64 =>
            V ← Result !! I; Some [PrintF64 (to_uint64 (ValBits V))]
        | _ => Some []
        end;
      Lines ← printResults Returns' (S I) Result;
      Some (Line ++ Lines)
  end.

End Driver.

(** ** Scenarios: the concrete situations of the specification *)

Module Scenario.

Import Executor.

Definition i32 (n : Z) : ValVariant :=
  {| ValTag := ValType.I32; ValBits := n |}.

Definition noType (Ps Rs : list ValType) : FunctionType :=
  {| getParamTypes := Ps; getReturnTypes := Rs; getTypeSymbol := None |}.

(** S1: the host function [(i32, i32) → i32] that returns the sum. *)
Definition addHost : HostFunctionBase :=
  {| getCost := 5;
     run := λ _ Args Rets,
       match Args with
       | [a; b] => (Expected tt, [i32 (ValBits a + ValBits b)])
       | _ => (Unexpect ErrCode.ExecutionFailed, Rets)
       end |}.

Definition addFunc : FunctionInstance :=
  {| getModuleAddr := 0;
     getFuncType := noType [ValType.I32; ValType.I32] [ValType.I32];
     getKind := HostFunction addHost |}.

(** A host function that fails with an error other than
    [ExecutionFailed]. *)
Definition faultyHost : HostFunctionBase :=
  {| getCost := 0;
     run := λ _ _ Rets, (Unexpect ErrCode.MemoryOutOfBounds, Rets) |}.

Definition faultyFunc : FunctionInstance :=
  {| getModuleAddr := 0;
     getFuncType := noType [] [];
     getKind := HostFunction faultyHost |}.

(** A module with one memory and the type [(i32, i32) → (i64)] (S6). *)
Definition theModule : ModuleInstance :=
  {| FuncTypes := [noType [ValType.I32; ValType.I32] [ValType.I64]];
     TableAddrs := []; MemAddrs := [0]; GlobalAddrs := [];
     ElemAddrs := []; DataAddrs := [];
     MemoryPtr := 4096; GlobalsPtr := [8192%Z] |}.

Definition theStore : StoreManager :=
  {| Modules := [theModule]; Tables := [];
     Memories := [{| MemData := [] |}];
     Globs := []; Elements := []; Datas := [] |}.

Definition callBody : InstrView :=
  [{| getOpCode := 16; getBlockType := BlockValType ValType.None |};
   {| getOpCode := 11; getBlockType := BlockValType ValType.None |}].

(** The instruction after the call. *)
Definition BackPos : iterator := {| View := callBody; Pos := 1 |}.

Definition mkExecutor (SM : StackManager.StackManager)
    (St : option Statistics.Statistics) : Executor :=
  {| StackMgr := SM; Stat := St;
     ExecutionContext := {| Memory := 0; Globals := [] |};
     CurrentStore := None; LogSink := []; Trace := [] |}.

(** S1: the operand stack [7, 5] above the sentinel frame. *)
Definition sevenFive : StackManager.StackManager :=
  StackManager.push (i32 5) (StackManager.push (i32 7) StackManager.init).

Definition atCall : Executor := mkExecutor sevenFive None.

(** S2: the same with a collector whose budget is exhausted by the call. *)
Definition metered : Executor :=
  mkExecutor sevenFive
    (Some {| Statistics.CostLimit := 3; Statistics.CostSum := 0;
             Statistics.WasmTimer := true; Statistics.HostTimer := false |}).

(** Inside a running function: its frame, its boundary label (which
    returns to position 7 of the caller's caller), one local and the two
    arguments of a call on the operand stack. *)
Definition outerBody : InstrView :=
  replicate 9 {| getOpCode := 1; getBlockType := BlockValType ValType.None |}.

Definition inFunction : Executor :=
  mkExecutor
    {| StackManager.ValueStack := [i32 9; i32 7; i32 5];
       StackManager.LabelStack :=
         [{| StackManager.EntryArity := 0; StackManager.ExitArity := 1;
             StackManager.LabelVStackOff := 1;
             StackManager.From := {| View := outerBody; Pos := 7 |};
             StackManager.Cont := None |}];
       StackManager.FrameStack :=
         [StackManager.DummyFrame
            {| StackManager.ValueStack := []; StackManager.LabelStack := [];
               StackManager.FrameStack := [] |};
          {| StackManager.ModAddr := Some 0; StackManager.Locals := 1;
             StackManager.Arity := 1; StackManager.IsTailCall := false;
             StackManager.VStackOff := 0; StackManager.LStackOff := 0 |}] |}
    None.

(** A native function with three locals. *)
Definition nativeFunc : FunctionInstance :=
  {| getModuleAddr := 0;
     getFuncType := noType [ValType.I32; ValType.I32] [ValType.I32];
     getKind := NativeFunction [(2, ValType.I32); (1, ValType.F64)] callBody |}.

(** S5: a compiled function that performs an out-of-bounds load, and one
    that returns its first argument; the trampoline calls the symbol. *)
Definition trampoline : Wrapper :=
  λ Ctx Symbol Args Rets, Symbol Ctx Args Rets.

Definition compiledType : FunctionType :=
  {| getParamTypes := [ValType.I32; ValType.I32];
     getReturnTypes := [ValType.I32];
     getTypeSymbol := Some trampoline |}.

Definition trappingFunc : FunctionInstance :=
  {| getModuleAddr := 0; getFuncType := compiledType;
     getKind := CompiledFunction
                  (λ _ _ Rets, (ErrCode.MemoryOutOfBounds, Rets)) |}.

Definition firstArgFunc : FunctionInstance :=
  {| getModuleAddr := 0; getFuncType := compiledType;
     getKind := CompiledFunction
                  (λ _ Args _, (ErrCode.Success, take 1 Args)) |}.

(** S3: inside a block inside a loop of block type 0, in a function of
    [theModule]: the loop header is instruction 2 of [loopBody], its label
    continues at position 5.  Above the function's local 1 the loop was
    entered with the values 2 and 3; the block has pushed 9, 4 and 5. *)
Definition loopBody : InstrView :=
  [{| getOpCode := 1; getBlockType := BlockValType ValType.None |};
   {| getOpCode := 1; getBlockType := BlockValType ValType.None |};
   {| getOpCode := 3; getBlockType := BlockTypeIdx 0 |};
   {| getOpCode := 65; getBlockType := BlockValType ValType.None |};
   {| getOpCode := 12; getBlockType := BlockValType ValType.None |};
   {| getOpCode := 11; getBlockType := BlockValType ValType.None |}].

Definition loopHeader : iterator := {| View := loopBody; Pos := 2 |}.

Definition loopLabel : StackManager.Label :=
  {| StackManager.EntryArity := 2; StackManager.ExitArity := 2;
     StackManager.LabelVStackOff := 1;
     StackManager.From := {| View := loopBody; Pos := 5 |};
     StackManager.Cont := Some loopHeader |}.

Definition inLoop : Executor :=
  mkExecutor
    {| StackManager.ValueStack := [i32 1; i32 2; i32 3; i32 9; i32 4; i32 5];
       StackManager.LabelStack :=
         [{| StackManager.EntryArity := 0; StackManager.ExitArity := 1;
             StackManager.LabelVStackOff := 0;
             StackManager.From := {| View := outerBody; Pos := 7 |};
             StackManager.Cont := None |};
          loopLabel;
          {| StackManager.EntryArity := 0; StackManager.ExitArity := 0;
             StackManager.LabelVStackOff := 3;
             StackManager.From := {| View := loopBody; Pos := 4 |};
             StackManager.Cont := None |}];
       StackManager.FrameStack :=
         [StackManager.DummyFrame
            {| StackManager.ValueStack := []; StackManager.LabelStack := [];
               StackManager.FrameStack := [] |};
          {| StackManager.ModAddr := Some 0; StackManager.Locals := 0;
             StackManager.Arity := 1; StackManager.IsTailCall := false;
             StackManager.VStackOff := 0; StackManager.LStackOff := 0 |}] |}
    None.

(** A machine that is its own WASI exit code: the program calls
    [proc_exit(42)], every other entry point succeeds. *)
Definition exitingVM : Driver.VMOps Z :=
  {| Driver.runWasmFile := λ _ _ _, (Unexpect ErrCode.Terminated, 42%Z);
     Driver.loadWasm := λ V _, (Expected tt, V);
     Driver.validate := λ V, (Expected tt, V);
     Driver.instantiate := λ V, (Expected tt, V);
     Driver.getFunctionList := λ _,
       [("f"%string,
         {| Driver.Params := [ValType.I32]; Driver.Returns := [] |})];
     Driver.execute := λ V _ _ _, (Expected [], V);
     Driver.getExitCode := λ V, V |}.

Definition commandLine : Driver.CommandLine :=
  {| Driver.ParseOk := true; Driver.isVersion := false;
     Driver.SoName := "app.wasm"; Driver.Args := [];
     Driver.Reactor := false |}.

(** No floating-point argument is parsed in the scenarios. *)
Definition noFloat : string → option Z := λ _, None.

(** S3 after the branch from the inner block to the loop. *)
Definition afterBranch : Executor :=
  match branchToLabel theStore 1 {| View := loopBody; Pos := 4 |} inLoop with
  | Done _ E' => E'
  | Undefined => inLoop
  end.

(** The executor a call of [Func] at [BackPos] leaves, when it is defined. *)
Definition afterCall (Func : FunctionInstance) (E : Executor) : Executor :=
  match enterFunction theStore Func BackPos false E with
  | Done _ E' => E'
  | Undefined => E
  end.

(** S1 with a collector whose budget covers the call. *)
Definition funded : Executor :=
  mkExecutor sevenFive
    (Some {| Statistics.CostLimit := 10; Statistics.CostSum := 2;
             Statistics.WasmTimer := true; Statistics.HostTimer := false |}).

(** Reactor mode: [f 1] on a module that exports [f] only. *)
Definition reactorLine : Driver.CommandLine :=
  {| Driver.ParseOk := true; Driver.isVersion := false;
     Driver.SoName := "lib.wasm"; Driver.Args := ["f"; "1"]%string;
     Driver.Reactor := true |}.

(** A module that exports [_initialize] and [f]; its initialisation
    fails. *)
Definition failingInitVM : Driver.VMOps Z :=
  {| Driver.runWasmFile := λ V _ _, (Expected [], V);
     Driver.loadWasm := λ V _, (Expected tt, V);
     Driver.validate := λ V, (Expected tt, V);
     Driver.instantiate := λ V, (Expected tt, V);
     Driver.getFunctionList := λ _,
       [("_initialize"%string,
         {| Driver.Params := []; Driver.Returns := [] |});
        ("f"%string,
         {| Driver.Params := [ValType.I32]; Driver.Returns := [] |})];
     Driver.execute := λ V Name _ _,
       if String.eqb Name "_initialize"
       then (Unexpect ErrCode.Unreachable, V) else (Expected [], V);
     Driver.getExitCode := λ V, V |}.

(** A configuration that keeps the proposals, the page limit and the host
    registrations it was given, latest first. *)
Record Configure := {
  Proposals : list Driver.Proposal.t;
  MaxMemoryPage : option Z;
  Hosts : list Driver.HostRegistration.t
}.

Definition isProposal (P Q : Driver.Proposal.t) : bool :=
  match P, Q with
  | Driver.Proposal.BulkMemoryOperations,
    Driver.Proposal.BulkMemoryOperations => true
  | Driver.Proposal.ReferenceTypes, Driver.Proposal.ReferenceTypes => true
  | Driver.Proposal.SIMD, Driver.Proposal.SIMD => true
  | _, _ => false
  end.

Definition configureOps : Driver.ConfigureOps Configure :=
  {| Driver.removeProposal := λ P Conf,
       {| Proposals := List.filter (λ Q, negb (isProposal P Q)) (Proposals Conf);
          MaxMemoryPage := MaxMemoryPage Conf; Hosts := Hosts Conf |};
     Driver.addProposal := λ P Conf,
       {| Proposals := P :: Proposals Conf;
          MaxMemoryPage := MaxMemoryPage Conf; Hosts := Hosts Conf |};
     Driver.setMaxMemoryPage := λ Pages Conf,
       {| Proposals := Proposals Conf;
          MaxMemoryPage := Some Pages; Hosts := Hosts Conf |};
     Driver.addHostRegistration := λ Host Conf,
       {| Proposals := Proposals Conf;
          MaxMemoryPage := MaxMemoryPage Conf; Hosts := Host :: Hosts Conf |} |}.

Definition defaultConfigure : Configure :=
  {| Proposals := [Driver.Proposal.BulkMemoryOperations;
                   Driver.Proposal.ReferenceTypes];
     MaxMemoryPage := None; Hosts := [] |}.

End Scenario.

(** * Properties *)

Import Executor.
Local Open Scope exec_scope.

(** ** Arithmetic of 32-bit counts *)

Lemma u32_of_size_small (n : nat) :
  (Z.of_nat n < 4294967296)%Z → u32_of_size n = n.
Proof.
  intros Hn. unfold u32_of_size.
  rewrite Z.mod_small by lia. apply Nat2Z.id.
Qed.

Lemma u32_add_small (a b : nat) :
  (Z.of_nat a + Z.of_nat b < 4294967296)%Z → u32_add a b = a + b.
Proof.
  intros Hab. unfold u32_add.
  rewrite Z.mod_small by lia. lia.
Qed.

(** ** The monad *)

Lemma bind_Done {A B} (m : M A) (k : A → M B) (E E' : Executor) (v : B) :
  bind m k E = Done v E' ↔ ∃ a E1, m E = Done a E1 ∧ k a E1 = Done v E'.
Proof.
  unfold bind. split.
  - destruct (m E) as [a E1|] eqn:Hm; [eauto | discriminate].
  - intros (a & E1 & -> & Hk). exact Hk.
Qed.

Lemma bind_run {A B} (m : M A) (k : A → M B) (E E1 : Executor) (a : A) :
  m E = Done a E1 → bind m k E = k a E1.
Proof. unfold bind. intros ->. reflexivity. Qed.

(** ** Stack manager *)

Section StackFacts.
Import StackManager.

Lemma foldl_push (Vs : list ValVariant) (SM : StackManager) :
  foldl (λ SM' V, push V SM') SM Vs =
  {| ValueStack := ValueStack SM ++ Vs; LabelStack := LabelStack SM;
     FrameStack := FrameStack SM |}.
Proof.
  revert SM. induction Vs as [|V Vs IH]; intros SM; simpl.
  - rewrite app_nil_r. destruct SM; reflexivity.
  - rewrite IH. simpl. rewrite <- app_assoc. reflexivity.
Qed.

Lemma iter_push (n : nat) (V : ValVariant) (SM : StackManager) :
  Nat.iter n (push V) SM =
  {| ValueStack := ValueStack SM ++ replicate n V;
     LabelStack := LabelStack SM; FrameStack := FrameStack SM |}.
Proof.
  induction n as [|n IH].
  - simpl. rewrite app_nil_r. destruct SM; reflexivity.
  - rewrite replicate_S_end. simpl. rewrite IH. unfold push. simpl.
    rewrite <- app_assoc. reflexivity.
Qed.

(** The values the declared locals stand for, in declaration order. *)
Lemma foldl_push_locals (Defs : list (nat * ValType)) (SM : StackManager) :
  foldl (λ SM' Def, Nat.iter Def.1 (push (ValueFromType Def.2)) SM') SM Defs =
  {| ValueStack :=
       ValueStack SM ++
       (Defs ≫= λ Def, replicate Def.1 (ValueFromType Def.2));
     LabelStack := LabelStack SM; FrameStack := FrameStack SM |}.
Proof.
  revert SM. induction Defs as [|Def Defs IH]; intros SM; simpl.
  - rewrite app_nil_r. destruct SM; reflexivity.
  - rewrite IH, iter_push. simpl. rewrite <- app_assoc. reflexivity.
Qed.

(** Returning through a frame entered by an ordinary call. *)
Lemma popFrame_fresh (SM : StackManager) (m p r : nat) (BackPos : iterator)
    (Vs : list ValVariant) :
  let SM1 := pushLabel 0 r BackPos None (pushFrame m p r false SM) in
  let Base := length (ValueStack SM) - p in
  popFrame {| ValueStack := Vs; LabelStack := LabelStack SM1;
              FrameStack := FrameStack SM1 |} =
  if decide (Base + r ≤ length Vs)
  then Some (BackPos,
             {| ValueStack := take Base Vs ++ drop (length Vs - r) Vs;
                LabelStack := LabelStack SM; FrameStack := FrameStack SM |})
  else None.
Proof.
  unfold popFrame, pushLabel, pushFrame, eraseValues. simpl.
  rewrite !last_snoc. simpl.
  destruct (decide _); [|reflexivity]. simpl.
  rewrite take_app_length, removelast_last. reflexivity.
Qed.

(** Returning through the frame of a call, tail call or not: the result is
    the continuation of the call's boundary label, and the operand stack is
    cut at the frame's saved height, which a tail call inherits. *)
Lemma popFrame_entered (SM : StackManager) (m p r : nat) (Tail : bool)
    (BackPos : iterator) (Vs : list ValVariant) :
  let SM1 := pushLabel 0 r BackPos None (pushFrame m p r Tail SM) in
  let Base := match Tail, last (FrameStack SM) with
              | true, Some Caller => VStackOff Caller
              | _, _ => length (ValueStack SM) - p
              end in
  Base + r ≤ length Vs →
  ∃ SM', popFrame {| ValueStack := Vs; LabelStack := LabelStack SM1;
                     FrameStack := FrameStack SM1 |} = Some (BackPos, SM')
         ∧ ValueStack SM' = take Base Vs ++ drop (length Vs - r) Vs.
Proof.
  intros SM1 Base Hfit. unfold popFrame, pushLabel, pushFrame, eraseValues.
  simpl. rewrite last_snoc.
  destruct Tail, (last (FrameStack SM)) as [Caller|]; rewrite last_snoc; simpl;
    simpl in Base; fold Base;
    (destruct (decide _) as [_|Hbad]; [|contradiction]); simpl;
    eexists; split; reflexivity.
Qed.

(** After [pushFrame] the topmost frame is the callee's. *)
Lemma pushFrame_top (m p r : nat) (Tail : bool) (SM : StackManager) :
  ∃ F, last (FrameStack (pushFrame m p r Tail SM)) = Some F
       ∧ ModAddr F = Some m.
Proof.
  unfold pushFrame. simpl.
  destruct Tail, (last (FrameStack SM)); rewrite last_snoc; eauto.
Qed.

End StackFacts.

(** ** Instance lookup *)

Ltac run_lookup Hlast Hdummy :=
  unfold bind, askStack, StackManager.isTopDummyFrame;
  rewrite Hlast; simpl; rewrite Hdummy; reflexivity.

(** C3. With the sentinel frame on top, each of the five lookups
    [get{Tab,Mem,Glob,Elem,Data}InstByIdx] returns no instance, for every
    index and every store, and leaves the executor as it was: in particular
    the trace gains no store or index-space lookup. *)
Theorem sentinel_lookups_return_nil (S : StoreManager) (Idx : nat)
    (E : Executor) (F : StackManager.Frame) :
  last (frames E) = Some F →
  StackManager.isDummy F = true →
  getTabInstByIdx S Idx E = Done None E
  ∧ getMemInstByIdx S Idx E = Done None E
  ∧ getGlobInstByIdx S Idx E = Done None E
  ∧ getElemInstByIdx S Idx E = Done None E
  ∧ getDataInstByIdx S Idx E = Done None E.
Proof.
  intros Hlast Hdummy. repeat split.
  - unfold getTabInstByIdx. run_lookup Hlast Hdummy.
  - unfold getMemInstByIdx. run_lookup Hlast Hdummy.
  - unfold getGlobInstByIdx. run_lookup Hlast Hdummy.
  - unfold getElemInstByIdx. run_lookup Hlast Hdummy.
  - unfold getDataInstByIdx. run_lookup Hlast Hdummy.
Qed.

(** Before any call the sentinel is on top: memory 0 of the store is not
    found through it. *)
Lemma sentinel_lookups_return_nil_witness :
  let S := Scenario.theStore in
  let E := Scenario.atCall in
  getTabInstByIdx S 0 E = Done None E
  ∧ getMemInstByIdx S 0 E = Done None E
  ∧ getGlobInstByIdx S 0 E = Done None E
  ∧ getElemInstByIdx S 0 E = Done None E
  ∧ getDataInstByIdx S 0 E = Done None E.
Proof.
  apply (sentinel_lookups_return_nil Scenario.theStore 0 Scenario.atCall
           (StackManager.DummyFrame
              {| StackManager.ValueStack := []; StackManager.LabelStack := [];
                 StackManager.FrameStack := [] |}));
    reflexivity.
Defined.

(** ** Function entry: native callee *)

Lemma zero_locals (Defs : list (nat * ValType)) :
  let Zeros := Defs ≫= λ Def, replicate Def.1 (ValueFromType Def.2) in
  Forall (λ V, ValBits V = 0%Z) Zeros
  ∧ ValTag <$> Zeros = (Defs ≫= λ Def, replicate Def.1 Def.2)
  ∧ length Zeros = sum_list (fst <$> Defs).
Proof.
  induction Defs as [|[n T] Defs (IHz & IHt & IHl)]; simpl.
  - split; [constructor | auto].
  - split; [|split].
    + apply Forall_app. split; [|exact IHz].
      apply Forall_replicate. reflexivity.
    + rewrite fmap_app, fmap_replicate. simpl. f_equal. exact IHt.
    + rewrite length_app, length_replicate. f_equal. exact IHl.
Qed.

(** C6. For a native callee [enterFunction] pushes, for each local
    declaration in order, [count] zero values of the declared type, then the
    boundary label with entry arity 0, exit arity |results|, continuation
    [BackPos - 1] and no loop-body PC, and returns the iterator at the first
    instruction of the callee's body. *)
Theorem enterFunction_native (S : StoreManager) (Func : FunctionInstance)
    (Defs : list (nat * ValType)) (Instrs : InstrView)
    (BackPos : iterator) (IsTailCall : bool) (E : Executor) :
  let Results := getReturnTypes (getFuncType Func) in
  let Zeros := Defs ≫= λ Def, replicate Def.1 (ValueFromType Def.2) in
  getKind Func = NativeFunction Defs Instrs →
  (Z.of_nat (length Results) < 4294967296)%Z →
  ∃ E',
    enterFunction S Func BackPos IsTailCall E
      = Done (Expected (begin Instrs)) E'
    ∧ deref (begin Instrs) = head Instrs
    ∧ operands E' = operands E ++ Zeros
    ∧ Forall (λ V, ValBits V = 0%Z) Zeros
    ∧ ValTag <$> Zeros = (Defs ≫= λ Def, replicate Def.1 Def.2)
    ∧ labels E' =
        labels E ++
        [{| StackManager.EntryArity := 0;
            StackManager.ExitArity := length Results;
            StackManager.LabelVStackOff := length (operands E');
            StackManager.From := iterator_sub BackPos 1;
            StackManager.Cont := None |}].
Proof.
  intros Results Zeros Hkind Hrets.
  unfold enterFunction. fold Results.
  rewrite Hkind, (u32_of_size_small _ Hrets).
  unfold pushLocals, bind, onStack, modify, ret. simpl.
  eexists. split; [reflexivity|].
  split; [destruct Instrs; reflexivity|].
  destruct (zero_locals Defs) as (Hz & Ht & _).
  rewrite foldl_push_locals. simpl.
  rewrite Nat.sub_0_r.
  repeat split; assumption.
Qed.

(** A native function with locals [(2, i32); (1, f64)] entered on [7, 5]. *)
Lemma enterFunction_native_witness :
  ∃ E',
    enterFunction Scenario.theStore Scenario.nativeFunc Scenario.BackPos false
      Scenario.atCall = Done (Expected (begin Scenario.callBody)) E'
    ∧ deref (begin Scenario.callBody) = head Scenario.callBody
    ∧ operands E' =
        [Scenario.i32 7; Scenario.i32 5] ++
        [ValueFromType ValType.I32; ValueFromType ValType.I32;
         ValueFromType ValType.F64]
    ∧ Forall (λ V, ValBits V = 0%Z)
        [ValueFromType ValType.I32; ValueFromType ValType.I32;
         ValueFromType ValType.F64]
    ∧ ValTag <$> [ValueFromType ValType.I32; ValueFromType ValType.I32;
                  ValueFromType ValType.F64]
        = [ValType.I32; ValType.I32; ValType.F64]
    ∧ labels E' =
        [] ++
        [{| StackManager.EntryArity := 0;
            StackManager.ExitArity := 1;
            StackManager.LabelVStackOff := length (operands E');
            StackManager.From := {| View := Scenario.callBody; Pos := 0 |};
            StackManager.Cont := None |}].
Proof.
  apply (enterFunction_native Scenario.theStore Scenario.nativeFunc
           [(2, ValType.I32); (1, ValType.F64)] Scenario.callBody
           Scenario.BackPos false Scenario.atCall).
  - reflexivity.
  - simpl. lia.
Defined.

(** ** Function entry: host callee *)

Ltac exec_unfold :=
  unfold runHostFunction, runCompiledFunction, getMemInstByIdx, currentModule,
    StoreMgr_getModule, StoreMgr_getMemory, ModInst_getMemAddr, pushAll,
    emit, spdlog_error, onStack, unchecked, bind, ret, popStack, askStack,
    modify, gets, undefined, onStat, Stat_addCost in *.

Ltac trace_simpl :=
  unfold hostRuns; rewrite ?omap_app; simpl; rewrite ?app_nil_r.

(** The memory lookup only adds lookups to the trace. *)
Lemma getMemInstByIdx_preserves (S : StoreManager) (Idx : nat) (E E' : Executor)
    (R : option MemoryInstance) :
  getMemInstByIdx S Idx E = Done R E' →
  StackMgr E' = StackMgr E ∧ Stat E' = Stat E ∧ LogSink E' = LogSink E
  ∧ ExecutionContext E' = ExecutionContext E
  ∧ hostRuns (Trace E') = hostRuns (Trace E).
Proof.
  exec_unfold. intros H.
  repeat case_match; simplify_eq/=; trace_simpl; auto.
Qed.

(** With a live module under the topmost frame the lookup is defined. *)
Lemma getMemInstByIdx_live (S : StoreManager) (Idx : nat) (E : Executor)
    (F : StackManager.Frame) (a : nat) (Mod : ModuleInstance) :
  last (frames E) = Some F →
  StackManager.ModAddr F = Some a →
  Modules S !! a = Some Mod →
  ∃ E', getMemInstByIdx S Idx E =
          Done (MemAddrs Mod !! Idx ≫= λ MemAddr, Memories S !! MemAddr) E'.
Proof.
  intros Hlast Hmod Hlive. exec_unfold.
  unfold StackManager.isTopDummyFrame, StackManager.getModuleAddr,
    StackManager.isDummy.
  rewrite Hlast. simpl. rewrite Hmod. simpl.
  rewrite Hlast. simpl. rewrite Hmod, Hlive. simpl.
  destruct (MemAddrs Mod !! Idx); simpl; eauto.
Qed.

(** What a terminating run of lines 61-88 has done. *)
Lemma runHostFunction_inv (H : HostFunctionBase) (Mem : option MemoryInstance)
    (p r : nat) (E E' : Executor) (R : Expect iterator) :
  runHostFunction H Mem p r E = Done R E' →
  let VS := operands E in
  let Args := drop (length VS - p) VS in
  p ≤ length VS
  ∧ hostRuns (Trace E') = hostRuns (Trace E) ++ [(Mem, Args)]
  ∧ match run H Mem Args (replicate r ValVariant_default) with
    | (Unexpect Err, _) =>
        R = Unexpect Err
        ∧ LogSink E' = LogSink E ++
            (if decide (Err = ErrCode.ExecutionFailed) then [Err] else [])
    | (Expected _, Rets') =>
        LogSink E' = LogSink E
        ∧ ∃ PC, R = Expected PC
          ∧ StackManager.popFrame
              {| StackManager.ValueStack := take (length VS - p) VS ++ Rets';
                 StackManager.LabelStack := labels E;
                 StackManager.FrameStack := frames E |}
            = Some (PC, StackMgr E')
    end.
Proof.
  intros Hrun VS Args. revert Hrun.
  exec_unfold. unfold StackManager.popTopN. fold VS.
  destruct (decide (p ≤ length VS)) as [Hp|]; [|intros Hu; discriminate Hu].
  fold Args. simpl.
  destruct (run H Mem Args (replicate r ValVariant_default))
    as [[[]|Err] Rets'];
    simpl; destruct (Stat E) as [St|] eqn:HS; simpl; rewrite ?HS; simpl;
    rewrite ?foldl_push; simpl.
  1,2: destruct (StackManager.popFrame _) as [[PC SM]|]; simpl;
    [|intros Hu; discriminate Hu].
  all: try destruct (decide (Err = ErrCode.ExecutionFailed)).
  all: intros [= <- <-]; simpl; trace_simpl; eauto 10.
Qed.

(** The two ways through lines 31-59: the collector refuses the charge, or
    the host function is run on the stacks left by lines 25 and 40. *)
Lemma enterFunction_host_inv (S : StoreManager) (Func : FunctionInstance)
    (H : HostFunctionBase) (BackPos : iterator) (Tail : bool)
    (E E' : Executor) (R : Expect iterator) :
  getKind Func = HostFunction H →
  enterFunction S Func BackPos Tail E = Done R E' →
  let p := u32_of_size (length (getParamTypes (getFuncType Func))) in
  let r := u32_of_size (length (getReturnTypes (getFuncType Func))) in
  let SM0 :=
    StackManager.pushFrame (getModuleAddr Func) p r Tail (StackMgr E) in
  let SM1 := StackManager.pushLabel 0 r BackPos None SM0 in
  (∃ St, Stat E = Some St
         ∧ (Statistics.addCost (getCost H) St).1 = false
         ∧ R = Unexpect ErrCode.CostLimitExceeded
         ∧ StackMgr E' = SM1
         ∧ LogSink E' = LogSink E ++ [ErrCode.CostLimitExceeded]
         ∧ hostRuns (Trace E') = hostRuns (Trace E))
  ∨ (∃ E2 Mem, StackMgr E2 = SM1 ∧ LogSink E2 = LogSink E
               ∧ hostRuns (Trace E2) = hostRuns (Trace E)
               ∧ runHostFunction H Mem p r E2 = Done R E').
Proof.
  intros Hkind Hrun p r SM0 SM1. unfold enterFunction in Hrun.
  rewrite Hkind in Hrun. fold p r in Hrun.
  apply bind_Done in Hrun as ([] & E0 & [= <-] & Hrun).
  apply bind_Done in Hrun as ([] & E1 & [= <-] & Hrun).
  apply bind_Done in Hrun as (Mem & E2 & Hmem & Hrun).
  apply getMemInstByIdx_preserves in Hmem as (Hsm & Hst & Hlog & _ & Htr).
  simpl in Hsm, Hst, Hlog, Htr. fold SM0 SM1 in Hsm.
  apply bind_Done in Hrun as (Collector & E3 & [= <- <-] & Hrun).
  destruct (Stat E2) as [St|] eqn:HS.
  - apply bind_Done in Hrun as (Charged & E4 & Hcharge & Hrun).
    unfold Stat_addCost in Hcharge. rewrite HS in Hcharge.
    destruct (Statistics.addCost (getCost H) St) as [Ok St'] eqn:Hadd.
    injection Hcharge as <- <-.
    destruct Ok; simpl in Hrun.
    + right.
      apply bind_Done in Hrun as ([] & E5 & H5 & Hrun).
      apply bind_Done in Hrun as ([] & E6 & H6 & Hrun).
      unfold onStat in H5, H6. simpl in H5. injection H5 as <-.
      simpl in H6. injection H6 as <-.
      eexists _, Mem. split; [|split; [|split; [|exact Hrun]]]; simpl; auto.
    + left. exists St. unfold spdlog_error, modify, bind, ret in Hrun.
      injection Hrun as <- <-. simpl. rewrite Hadd.
      repeat split; auto. congruence.
  - right. exists E2, Mem. repeat split; auto.
Qed.

(** The stacks when the host function is about to be charged and run. *)
Lemma enterFunction_host_run (S : StoreManager) (Func : FunctionInstance)
    (H : HostFunctionBase) (BackPos : iterator) (Tail : bool) (E : Executor)
    (Mod : ModuleInstance) :
  getKind Func = HostFunction H →
  Modules S !! getModuleAddr Func = Some Mod →
  let p := u32_of_size (length (getParamTypes (getFuncType Func))) in
  let r := u32_of_size (length (getReturnTypes (getFuncType Func))) in
  let SM0 :=
    StackManager.pushFrame (getModuleAddr Func) p r Tail (StackMgr E) in
  let SM1 := StackManager.pushLabel 0 r BackPos None SM0 in
  let Mem := MemAddrs Mod !! 0 ≫= λ MemAddr, Memories S !! MemAddr in
  ∃ E2, StackMgr E2 = SM1 ∧ Stat E2 = Stat E ∧ LogSink E2 = LogSink E
        ∧ hostRuns (Trace E2) = hostRuns (Trace E)
        ∧ enterFunction S Func BackPos Tail E =
            match Stat E2 with
            | Some St =>
                let '(Charged, St') := Statistics.addCost (getCost H) St in
                if Charged then
                  runHostFunction H Mem p r
                    (setStat (Some (Statistics.startRecordHost
                                      (Statistics.stopRecordWasm St'))) E2)
                else
                  Done (Unexpect ErrCode.CostLimitExceeded)
                       (addLog ErrCode.CostLimitExceeded
                               (setStat (Some St') E2))
            | None => runHostFunction H Mem p r E2
            end.
Proof.
  intros Hkind Hlive p r SM0 SM1 Mem.
  destruct (pushFrame_top (getModuleAddr Func) p r Tail (StackMgr E))
    as (F & Hlast & Hmod).
  set (E1 := setStackMgr SM1 (setStackMgr SM0 E)).
  destruct (getMemInstByIdx_live S 0 E1 F _ Mod Hlast Hmod Hlive)
    as (E2 & Hmem).
  fold Mem in Hmem.
  destruct (getMemInstByIdx_preserves _ _ _ _ _ Hmem)
    as (Hsm & Hst & Hlog & _ & Htr).
  exists E2. repeat (split; [assumption|]).
  unfold enterFunction. rewrite Hkind. fold p r.
  unfold bind at 1. unfold onStack at 1, modify at 1.
  unfold bind at 1. unfold onStack at 1, modify at 1.
  fold SM0 SM1 E1. rewrite (bind_run _ _ _ _ _ Hmem).
  unfold bind at 1, gets at 1.
  destruct (Stat E2) as [St|] eqn:HS; [|reflexivity].
  unfold bind at 1, Stat_addCost. rewrite HS.
  destruct (Statistics.addCost (getCost H) St) as [[] St']; simpl.
  - reflexivity.
  - reflexivity.
Qed.

(** Lines 61-88 when the host function succeeds. *)
Lemma runHostFunction_success (H : HostFunctionBase)
    (Mem : option MemoryInstance) (p r : nat) (E : Executor)
    (Rets' : list ValVariant) (PC : iterator)
    (SM' : StackManager.StackManager) :
  let VS := operands E in
  let Args := drop (length VS - p) VS in
  p ≤ length VS →
  run H Mem Args (replicate r ValVariant_default) = (Expected tt, Rets') →
  StackManager.popFrame
    {| StackManager.ValueStack := take (length VS - p) VS ++ Rets';
       StackManager.LabelStack := labels E;
       StackManager.FrameStack := frames E |}
  = Some (PC, SM') →
  ∃ E', runHostFunction H Mem p r E = Done (Expected PC) E'
        ∧ StackMgr E' = SM'
        ∧ LogSink E' = LogSink E
        ∧ hostRuns (Trace E') = hostRuns (Trace E) ++ [(Mem, Args)].
Proof.
  intros VS Args Hp Hrun Hpop.
  exec_unfold. unfold StackManager.popTopN. fold VS.
  destruct (decide (p ≤ length VS)) as [_|]; [|contradiction].
  fold Args. simpl. rewrite Hrun. simpl.
  destruct (Stat E) as [St|] eqn:HS; simpl; rewrite ?HS; simpl;
    rewrite foldl_push; simpl; fold VS; rewrite Hpop; simpl;
    eexists; (split; [reflexivity|]); simpl; trace_simpl; auto.
Qed.

(** ** Function entry: compiled callee *)

(** What a terminating run of lines 101-133 has done. *)
Lemma runCompiledFunction_inv (S : StoreManager) (Func : FunctionInstance)
    (Symbol : CompiledCode) (p r : nat) (E E' : Executor)
    (R : Expect iterator) :
  runCompiledFunction S Func Symbol p r E = Done R E' →
  let VS := operands E in
  let Args := drop (length VS - p) VS in
  p ≤ length VS
  ∧ ∃ Mod Wrap,
      Modules S !! getModuleAddr Func = Some Mod
      ∧ getTypeSymbol (getFuncType Func) = Some Wrap
      ∧ let Ctx := {| Memory := MemoryPtr Mod; Globals := GlobalsPtr Mod |} in
        Trace E' = Trace E ++ [EvStoreGet KModule (getModuleAddr Func);
                               EvFaultProtect; EvWrapper Ctx Args]
        ∧ ExecutionContext E' = Ctx
        ∧ CurrentStore E' = Some S
        ∧ let '(Err, Rets') :=
            Wrap Ctx Symbol Args (replicate r ValVariant_default) in
          if decide (Err = ErrCode.Success) then
            LogSink E' = LogSink E
            ∧ ∃ PC, R = Expected PC
              ∧ StackManager.popFrame
                  {| StackManager.ValueStack :=
                       take (length VS - p) VS ++ Rets';
                     StackManager.LabelStack := labels E;
                     StackManager.FrameStack := frames E |}
                = Some (PC, StackMgr E')
          else
            R = Unexpect Err
            ∧ LogSink E' = LogSink E ++
                (if decide (Err = ErrCode.Terminated) then [] else [Err]).
Proof.
  intros Hrun VS Args. revert Hrun.
  exec_unfold. unfold StackManager.popTopN. fold VS.
  destruct (decide (p ≤ length VS)) as [Hp|]; [|intros Hu; discriminate Hu].
  fold Args. simpl.
  destruct (Modules S !! getModuleAddr Func) as [Mod|]; simpl;
    [|intros Hu; discriminate Hu].
  destruct (getTypeSymbol (getFuncType Func)) as [Wrap|]; simpl;
    [|intros Hu; discriminate Hu].
  intros Hrun. split; [exact Hp|]. exists Mod, Wrap.
  split; [reflexivity|]. split; [reflexivity|]. simpl. revert Hrun.
  destruct (Wrap _ Symbol Args (replicate r ValVariant_default)) as [Err Rets'].
  destruct (decide (Err = ErrCode.Success)) as [->|Hne]; simpl.
  - rewrite foldl_push. simpl.
    destruct (StackManager.popFrame _) as [[PC SM]|]; simpl;
      [|intros Hu; discriminate Hu].
    intros [= <- <-]. simpl. rewrite <- !app_assoc. simpl. eauto 10.
  - destruct (decide (Err ≠ ErrCode.Success)) as [_|]; [|contradiction].
    destruct (decide (Err ≠ ErrCode.Terminated)) as [Ht|Ht];
      destruct (decide (Err = ErrCode.Terminated)) as [Ht'|Ht']; simpl;
      try contradiction.
    + intros [= <- <-]. simpl. rewrite <- !app_assoc. simpl. auto 10.
    + intros [= <- <-]. simpl. rewrite <- !app_assoc, app_nil_r. simpl.
      auto 10.
Qed.

Lemma enterFunction_compiled_eq (S : StoreManager) (Func : FunctionInstance)
    (Symbol : CompiledCode) (BackPos : iterator) (Tail : bool) (E : Executor) :
  getKind Func = CompiledFunction Symbol →
  let p := u32_of_size (length (getParamTypes (getFuncType Func))) in
  let r := u32_of_size (length (getReturnTypes (getFuncType Func))) in
  let SM0 :=
    StackManager.pushFrame (getModuleAddr Func) p r Tail (StackMgr E) in
  let SM1 := StackManager.pushLabel 0 r BackPos None SM0 in
  enterFunction S Func BackPos Tail E =
  runCompiledFunction S Func Symbol p r (setStackMgr SM1 (setStackMgr SM0 E)).
Proof. intros Hkind. unfold enterFunction. rewrite Hkind. reflexivity. Qed.

(** ** Frame balance *)

(** C1 (amended). For every call of [enterFunction] that is not a tail call,
    on a host or compiled callee, that returns normally: the callee's
    |params| arguments were on the operand stack, the operand-stack height
    afterwards is the height before minus |params| plus |results|, and the
    label-stack height is what it was before the call. *)
Theorem frame_balance_ordinary_call (S : StoreManager)
    (Func : FunctionInstance) (BackPos PC : iterator) (E E' : Executor) :
  let Params := getParamTypes (getFuncType Func) in
  let Results := getReturnTypes (getFuncType Func) in
  let VS := operands E in
  isHostFunction Func || isCompiledFunction Func = true →
  (Z.of_nat (length Params) < 4294967296)%Z →
  (Z.of_nat (length Results) < 4294967296)%Z →
  enterFunction S Func BackPos false E = Done (Expected PC) E' →
  length Params ≤ length VS
  ∧ length (operands E') = length VS - length Params + length Results
  ∧ length (labels E') = length (labels E).
Proof.
  intros Params Results VS Hkind Hp Hr Hrun.
  assert (Hbal : ∀ (E2 : Executor) (Rets' : list ValVariant),
    StackMgr E2 =
      StackManager.pushLabel 0 (length Results) BackPos None
        (StackManager.pushFrame (getModuleAddr Func) (length Params)
           (length Results) false (StackMgr E)) →
    length Params ≤ length (operands E2) →
    StackManager.popFrame
      {| StackManager.ValueStack :=
           take (length (operands E2) - length Params) (operands E2) ++ Rets';
         StackManager.LabelStack := labels E2;
         StackManager.FrameStack := frames E2 |}
      = Some (PC, StackMgr E') →
    length Params ≤ length VS
    ∧ length (operands E') = length VS - length Params + length Results
    ∧ length (labels E') = length (labels E)).
  { intros E2 Rets' Hsm Hle Hpop. rewrite Hsm in Hpop, Hle.
    rewrite popFrame_fresh in Hpop.
    destruct (decide _) as [Hfit|]; [|discriminate].
    injection Hpop as _ <-. simpl in *. fold VS in Hfit |- *.
    split; [exact Hle|]. split; [|reflexivity].
    rewrite length_app, length_take, length_drop. lia. }
  destruct (getKind Func) as [Defs Instrs|H|Symbol] eqn:Hk.
  - unfold isHostFunction, isCompiledFunction in Hkind. rewrite Hk in Hkind.
    discriminate.
  - apply (enterFunction_host_inv _ _ _ _ _ _ _ _ Hk) in Hrun.
    fold Params Results in Hrun.
    rewrite (u32_of_size_small _ Hp), (u32_of_size_small _ Hr) in Hrun.
    destruct Hrun as [(St & _ & _ & Hbad & _)|(E2 & Mem & Hsm & _ & _ & Hrun)];
      [discriminate|].
    apply runHostFunction_inv in Hrun as (Hle & _ & Hrun).
    destruct (run H Mem _ _) as [[[]|Err] Rets'].
    + destruct Hrun as (_ & PC' & [= <-] & Hpop). eauto.
    + destruct Hrun as [Hbad _]. discriminate.
  - rewrite (enterFunction_compiled_eq _ _ _ _ _ _ Hk) in Hrun.
    fold Params Results in Hrun.
    rewrite (u32_of_size_small _ Hp), (u32_of_size_small _ Hr) in Hrun.
    apply runCompiledFunction_inv in Hrun
      as (Hle & Mod & Wrap & _ & _ & _ & _ & _ & Hrun).
    destruct (Wrap _ _ _ _) as [Err Rets'].
    destruct (decide (Err = ErrCode.Success)).
    + destruct Hrun as (_ & PC' & [= <-] & Hpop).
      eapply (Hbal _ Rets'); [|exact Hle|exact Hpop]. reflexivity.
    + destruct Hrun as [Hbad _]. discriminate.
Qed.

(** S1: the host add called on [7, 5] leaves [12] and an empty label
    stack. *)
Lemma frame_balance_ordinary_call_witness :
  let E' := match enterFunction Scenario.theStore Scenario.addFunc
                    Scenario.BackPos false Scenario.atCall with
            | Done _ E' => E'
            | Undefined => Scenario.atCall
            end in
  2 ≤ 2
  ∧ length (operands E') = 2 - 2 + 1
  ∧ length (labels E') = 0.
Proof.
  intros E'.
  apply (frame_balance_ordinary_call Scenario.theStore Scenario.addFunc
           Scenario.BackPos Scenario.BackPos Scenario.atCall E').
  - reflexivity.
  - simpl. lia.
  - simpl. lia.
  - vm_compute. reflexivity.
Defined.

(** C1 as stated fails on a tail call: the host add entered as a tail call
    inside a running function returns normally, yet the label stack has lost
    the caller's boundary label and the operand stack the caller's local. *)
Lemma frame_balance_tail_call_counterexample :
  ∃ PC E',
    isHostFunction Scenario.addFunc = true
    ∧ enterFunction Scenario.theStore Scenario.addFunc Scenario.BackPos true
        Scenario.inFunction = Done (Expected PC) E'
    ∧ length (operands Scenario.inFunction) = 3
    ∧ length (getParamTypes (getFuncType Scenario.addFunc)) = 2
    ∧ length (getReturnTypes (getFuncType Scenario.addFunc)) = 1
    ∧ length (operands E') = 1
    ∧ length (labels Scenario.inFunction) = 1
    ∧ length (labels E') = 0.
Proof. eexists _, _. vm_compute. repeat split. Qed.

(** ** Metering *)

(** C2. When a collector is attached and refuses the charge of a host
    callee, [enterFunction] returns [CostLimitExceeded], the operand stack is
    the one before the call, and no host callable has been invoked. *)
Theorem metering_refusal_is_atomic (S : StoreManager)
    (Func : FunctionInstance) (H : HostFunctionBase) (BackPos : iterator)
    (IsTailCall : bool) (E : Executor) (St : Statistics.Statistics)
    (Mod : ModuleInstance) :
  getKind Func = HostFunction H →
  Modules S !! getModuleAddr Func = Some Mod →
  Stat E = Some St →
  (Statistics.addCost (getCost H) St).1 = false →
  ∃ E',
    enterFunction S Func BackPos IsTailCall E =
      Done (Unexpect ErrCode.CostLimitExceeded) E'
    ∧ operands E' = operands E
    ∧ hostRuns (Trace E') = hostRuns (Trace E).
Proof.
  intros Hkind Hlive HStat Hrefused.
  destruct (enterFunction_host_run S Func H BackPos IsTailCall E Mod
              Hkind Hlive) as (E2 & Hsm & Hst & _ & Htr & ->).
  rewrite Hst, HStat.
  destruct (Statistics.addCost (getCost H) St) as [Charged St'].
  simpl in Hrefused. subst Charged.
  eexists. split; [reflexivity|]. simpl. rewrite Hsm. auto.
Qed.

(** S2: the collector with budget 3 refuses the cost 5 of the host add. *)
Lemma metering_refusal_is_atomic_witness :
  ∃ E',
    enterFunction Scenario.theStore Scenario.addFunc Scenario.BackPos false
      Scenario.metered = Done (Unexpect ErrCode.CostLimitExceeded) E'
    ∧ operands E' = [Scenario.i32 7; Scenario.i32 5]
    ∧ hostRuns (Trace E') = [].
Proof.
  apply (metering_refusal_is_atomic Scenario.theStore Scenario.addFunc
           Scenario.addHost Scenario.BackPos false Scenario.metered
           {| Statistics.CostLimit := 3; Statistics.CostSum := 0;
              Statistics.WasmTimer := true; Statistics.HostTimer := false |}
           Scenario.theModule); reflexivity.
Defined.

(** ** Host calls *)

(** C4. For a host callee, tail call or not, whose charge (if a collector
    is attached) is accepted and whose callable succeeds with |results|
    values: the top |params| operand values are handed over in stack order,
    the callable is invoked once with the memory 0 of the callee's module
    (or no memory), the returned values are pushed on the operand stack in
    order, and the result is the caller-supplied [BackPos].  The results sit
    on the values beneath the frame's saved height [Base], which is the
    height beneath the arguments for an ordinary call (the label and frame
    stacks are then as before) and the caller's saved height for a tail
    call. *)
Theorem enterFunction_host_success (S : StoreManager)
    (Func : FunctionInstance) (H : HostFunctionBase) (BackPos : iterator)
    (IsTailCall : bool) (E : Executor) (Mod : ModuleInstance)
    (Rets' : list ValVariant) :
  let Params := getParamTypes (getFuncType Func) in
  let Results := getReturnTypes (getFuncType Func) in
  let VS := operands E in
  let Args := drop (length VS - length Params) VS in
  let Mem := MemAddrs Mod !! 0 ≫= λ MemAddr, Memories S !! MemAddr in
  let Base := match IsTailCall, last (frames E) with
              | true, Some Caller => StackManager.VStackOff Caller
              | _, _ => length VS - length Params
              end in
  getKind Func = HostFunction H →
  Modules S !! getModuleAddr Func = Some Mod →
  (Z.of_nat (length Params) < 4294967296)%Z →
  (Z.of_nat (length Results) < 4294967296)%Z →
  (∀ St, Stat E = Some St →
         (Statistics.addCost (getCost H) St).1 = true) →
  length Params ≤ length VS →
  Base ≤ length VS - length Params →
  run H Mem Args (replicate (length Results) ValVariant_default)
    = (Expected tt, Rets') →
  length Rets' = length Results →
  ∃ E',
    enterFunction S Func BackPos IsTailCall E = Done (Expected BackPos) E'
    ∧ length Args = length Params
    ∧ hostRuns (Trace E') = hostRuns (Trace E) ++ [(Mem, Args)]
    ∧ operands E' = take Base VS ++ Rets'
    ∧ (IsTailCall = false →
         operands E' = take (length VS - length Params) VS ++ Rets'
         ∧ labels E' = labels E
         ∧ frames E' = frames E).
Proof.
  intros Params Results VS Args Mem Base Hkind Hlive Hp Hr Hcharge Hle Hbase
    Hrun Hlen.
  destruct (enterFunction_host_run S Func H BackPos IsTailCall E Mod
              Hkind Hlive) as (E2 & Hsm & Hst & _ & Htr & ->).
  fold Params Results Mem in Hsm |- *.
  rewrite (u32_of_size_small _ Hp), (u32_of_size_small _ Hr) in Hsm |- *.
  set (Vs := take (length VS - length Params) VS ++ Rets').
  assert (HVs : length Vs = length VS - length Params + length Results).
  { unfold Vs. rewrite length_app, length_take. lia. }
  destruct (popFrame_entered (StackMgr E) (getModuleAddr Func)
              (length Params) (length Results) IsTailCall BackPos Vs)
    as (SM' & Hpop & Hops).
  { fold VS Base. lia. }
  fold VS Base in Hops.
  assert (Hops' : StackManager.ValueStack SM' = take Base VS ++ Rets').
  { rewrite Hops. unfold Vs.
    rewrite take_app_le by (rewrite length_take; lia).
    rewrite take_take. fold Vs. rewrite HVs.
    replace (Base `min` (length VS - length Params)) with Base by lia.
    f_equal. unfold Vs.
    rewrite drop_app_ge by (rewrite length_take; lia).
    rewrite length_take.
    match goal with
    | |- drop ?n Rets' = _ => replace n with 0 by lia
    end.
    reflexivity. }
  assert (Hfresh : IsTailCall = false →
            StackManager.LabelStack SM' = labels E
            ∧ StackManager.FrameStack SM' = frames E).
  { intros ->. rewrite popFrame_fresh in Hpop.
    destruct (decide _) as [_|]; [|discriminate].
    injection Hpop as <-. auto. }
  assert (Hgo : ∀ E3, StackMgr E3 = StackMgr E2 → Trace E3 = Trace E2 →
    ∃ E', runHostFunction H Mem (length Params) (length Results) E3
            = Done (Expected BackPos) E'
          ∧ StackMgr E' = SM'
          ∧ hostRuns (Trace E') = hostRuns (Trace E) ++ [(Mem, Args)]).
  { intros E3 Hsm3 Htr3.
    destruct (runHostFunction_success H Mem (length Params) (length Results)
                E3 Rets' BackPos SM') as (E' & HE' & Hs' & _ & Ht').
    - rewrite Hsm3, Hsm. exact Hle.
    - rewrite Hsm3, Hsm. exact Hrun.
    - rewrite Hsm3, Hsm. exact Hpop.
    - exists E'. rewrite Ht', Htr3, Hsm3, Hsm, Htr. auto. }
  assert (Hargs : length Args = length Params).
  { unfold Args. rewrite length_drop. lia. }
  assert (Hend : ∀ E', StackMgr E' = SM' →
            operands E' = take Base VS ++ Rets'
            ∧ (IsTailCall = false →
                 operands E' = take (length VS - length Params) VS ++ Rets'
                 ∧ labels E' = labels E
                 ∧ frames E' = frames E)).
  { intros E' ->. split; [exact Hops'|]. intros Hordinary.
    destruct (Hfresh Hordinary) as [Hl Hf].
    rewrite Hops'. unfold Base. rewrite Hordinary. auto. }
  destruct (Stat E2) as [St|] eqn:HS.
  - specialize (Hcharge St). rewrite <- Hst in Hcharge.
    specialize (Hcharge eq_refl).
    destruct (Statistics.addCost (getCost H) St) as [Charged St'].
    simpl in Hcharge. subst Charged.
    destruct (Hgo (setStat (Some (Statistics.startRecordHost
                                    (Statistics.stopRecordWasm St'))) E2))
      as (E' & HE' & Hs' & Ht'); [reflexivity..|].
    exists E'. destruct (Hend E' Hs'). auto 10.
  - destruct (Hgo E2) as (E' & HE' & Hs' & Ht'); [reflexivity..|].
    exists E'. destruct (Hend E' Hs'). auto 10.
Qed.

(** S1: the host add called on [7, 5] is given [7, 5] and no memory handle
    other than memory 0 of its module, leaves [12], and returns to the
    caller-supplied position; so does the same call made as a tail call
    inside a running function, whose local 9 goes with the caller's
    frame. *)
Lemma enterFunction_host_success_witness :
  (∃ E',
     enterFunction Scenario.theStore Scenario.addFunc Scenario.BackPos false
       Scenario.atCall = Done (Expected Scenario.BackPos) E'
     ∧ 2 = 2
     ∧ hostRuns (Trace E') =
         [(Some {| MemData := [] |}, [Scenario.i32 7; Scenario.i32 5])]
     ∧ operands E' = [Scenario.i32 12]
     ∧ (false = false →
          operands E' = [Scenario.i32 12]
          ∧ labels E' = []
          ∧ frames E' = StackManager.FrameStack StackManager.init))
  ∧ (∃ E',
       enterFunction Scenario.theStore Scenario.addFunc Scenario.BackPos true
         Scenario.inFunction = Done (Expected Scenario.BackPos) E'
       ∧ 2 = 2
       ∧ hostRuns (Trace E') =
           [(Some {| MemData := [] |}, [Scenario.i32 7; Scenario.i32 5])]
       ∧ operands E' = [Scenario.i32 12]
       ∧ (true = false →
            operands E' = [Scenario.i32 9; Scenario.i32 12]
            ∧ labels E' = labels Scenario.inFunction
            ∧ frames E' = frames Scenario.inFunction)).
Proof.
  split.
  - apply (enterFunction_host_success Scenario.theStore Scenario.addFunc
             Scenario.addHost Scenario.BackPos false Scenario.atCall
             Scenario.theModule [Scenario.i32 12]).
    + reflexivity.
    + reflexivity.
    + simpl. lia.
    + simpl. lia.
    + intros St HSt. discriminate HSt.
    + simpl. lia.
    + simpl. lia.
    + reflexivity.
    + reflexivity.
  - apply (enterFunction_host_success Scenario.theStore Scenario.addFunc
             Scenario.addHost Scenario.BackPos true Scenario.inFunction
             Scenario.theModule [Scenario.i32 12]).
    + reflexivity.
    + reflexivity.
    + simpl. lia.
    + simpl. lia.
    + intros St HSt. discriminate HSt.
    + simpl. lia.
    + simpl. lia.
    + reflexivity.
    + reflexivity.
Defined.

(** ** Errors and the log sink *)

(** C7 (amended). An error returned by [enterFunction] is written to the log
    sink, once and last, before it is returned, except that [Terminated]
    raised by compiled code, and any error other than [ExecutionFailed]
    reported by a host callable, are returned without being logged.  In
    detail: a native callee returns no error; a compiled callee's fault is
    logged unless it is [Terminated]; a host callee's error is either the
    refused charge ([CostLimitExceeded], logged, the callable not invoked) or
    the error its callable reported, logged exactly when it is
    [ExecutionFailed]. *)
Theorem enterFunction_error_logging (S : StoreManager)
    (Func : FunctionInstance) (BackPos : iterator) (IsTailCall : bool)
    (E E' : Executor) (Err : ErrCode) :
  enterFunction S Func BackPos IsTailCall E = Done (Unexpect Err) E' →
  match getKind Func with
  | NativeFunction _ _ => False
  | CompiledFunction _ =>
      LogSink E' = LogSink E ++
        (if decide (Err = ErrCode.Terminated) then [] else [Err])
  | HostFunction H =>
      (hostRuns (Trace E') = hostRuns (Trace E)
       ∧ Err = ErrCode.CostLimitExceeded
       ∧ LogSink E' = LogSink E ++ [Err])
      ∨ (∃ Mem Args Rets Rets',
           hostRuns (Trace E') = hostRuns (Trace E) ++ [(Mem, Args)]
           ∧ run H Mem Args Rets = (Unexpect Err, Rets')
           ∧ LogSink E' = LogSink E ++
               (if decide (Err = ErrCode.ExecutionFailed) then [Err] else []))
  end.
Proof.
  intros Hrun.
  destruct (getKind Func) as [Defs Instrs|H|Symbol] eqn:Hk.
  - unfold enterFunction in Hrun. rewrite Hk in Hrun.
    unfold bind, pushLocals, onStack, modify, ret in Hrun. discriminate.
  - apply (enterFunction_host_inv _ _ _ _ _ _ _ _ Hk) in Hrun.
    destruct Hrun as [(St & _ & _ & [= ->] & _ & Hlog & Htr)
                     |(E2 & Mem & Hsm & Hlog & Htr & Hrun)].
    + left. auto.
    + right. apply runHostFunction_inv in Hrun as (_ & Htr' & Hrun).
      destruct (run H Mem _ _) as [[[]|Err'] Rets'] eqn:Hhost.
      * destruct Hrun as (_ & PC & Hbad & _). discriminate.
      * destruct Hrun as ([= <-] & Hlog'). rewrite Htr in Htr'.
        rewrite Hlog in Hlog'. eauto 10.
  - rewrite (enterFunction_compiled_eq _ _ _ _ _ _ Hk) in Hrun.
    apply runCompiledFunction_inv in Hrun
      as (_ & Mod & Wrap & _ & _ & _ & _ & _ & Hrun).
    destruct (Wrap _ _ _ _) as [Err' Rets'].
    destruct (decide (Err' = ErrCode.Success)).
    + destruct Hrun as (_ & PC & Hbad & _). discriminate.
    + destruct Hrun as ([= <-] & Hlog). exact Hlog.
Qed.

(** S5: the out-of-bounds load of a compiled callee is logged and returned. *)
Lemma enterFunction_error_logging_witness :
  let E' := match enterFunction Scenario.theStore Scenario.trappingFunc
                    Scenario.BackPos false Scenario.atCall with
            | Done _ E' => E'
            | Undefined => Scenario.atCall
            end in
  LogSink E' = [ErrCode.MemoryOutOfBounds].
Proof.
  intros E'.
  apply (enterFunction_error_logging Scenario.theStore Scenario.trappingFunc
           Scenario.BackPos false Scenario.atCall E' ErrCode.MemoryOutOfBounds).
  vm_compute. reflexivity.
Defined.

(** C7 as stated fails: a host callable that reports [MemoryOutOfBounds]
    makes [enterFunction] return that error, which is not [Terminated], and
    nothing reaches the log sink. *)
Lemma enterFunction_unlogged_host_error_counterexample :
  ∃ E',
    enterFunction Scenario.theStore Scenario.faultyFunc Scenario.BackPos false
      Scenario.atCall = Done (Unexpect ErrCode.MemoryOutOfBounds) E'
    ∧ ErrCode.MemoryOutOfBounds ≠ ErrCode.Terminated
    ∧ LogSink Scenario.atCall = []
    ∧ LogSink E' = [].
Proof.
  eexists. split; [vm_compute; reflexivity|]. repeat split. discriminate.
Qed.

(** ** Compiled calls *)

(** C8. For a compiled callee with its arguments on the stack, a live module
    and a trampoline: the module is looked up, the fault handler is
    installed, and then the trampoline is invoked, with the context whose
    memory base and globals array are those of the callee's module (the
    executor's context has been set to it).  When the status is not
    [Success], [enterFunction] returns that very status as its error, logged
    unless it is [Terminated]. *)
Theorem enterFunction_compiled_fault (S : StoreManager)
    (Func : FunctionInstance) (Symbol : CompiledCode) (BackPos : iterator)
    (IsTailCall : bool) (E : Executor) (Mod : ModuleInstance) (Wrap : Wrapper)
    (Err : ErrCode) (Rets' : list ValVariant) :
  let Params := getParamTypes (getFuncType Func) in
  let Results := getReturnTypes (getFuncType Func) in
  let VS := operands E in
  let Args := drop (length VS - length Params) VS in
  let Ctx := {| Memory := MemoryPtr Mod; Globals := GlobalsPtr Mod |} in
  let Calls := [EvStoreGet KModule (getModuleAddr Func); EvFaultProtect;
                EvWrapper Ctx Args] in
  getKind Func = CompiledFunction Symbol →
  Modules S !! getModuleAddr Func = Some Mod →
  getTypeSymbol (getFuncType Func) = Some Wrap →
  (Z.of_nat (length Params) < 4294967296)%Z →
  (Z.of_nat (length Results) < 4294967296)%Z →
  length Params ≤ length VS →
  Wrap Ctx Symbol Args (replicate (length Results) ValVariant_default)
    = (Err, Rets') →
  (Err ≠ ErrCode.Success →
     ∃ E', enterFunction S Func BackPos IsTailCall E = Done (Unexpect Err) E'
           ∧ LogSink E' = LogSink E ++
               (if decide (Err = ErrCode.Terminated) then [] else [Err])
           ∧ Trace E' = Trace E ++ Calls
           ∧ ExecutionContext E' = Ctx)
  ∧ (∀ R E', enterFunction S Func BackPos IsTailCall E = Done R E' →
       Trace E' = Trace E ++ Calls
       ∧ ExecutionContext E' = Ctx
       ∧ (Err = ErrCode.Success →
            LogSink E' = LogSink E ∧ ∃ PC, R = Expected PC)).
Proof.
  intros Params Results VS Args Ctx Calls Hkind Hlive Hwrap Hp Hr Hle Hcall.
  rewrite (enterFunction_compiled_eq _ _ _ _ _ _ Hkind).
  fold Params Results.
  rewrite (u32_of_size_small _ Hp), (u32_of_size_small _ Hr).
  split.
  - intros Hne. exec_unfold. unfold StackManager.popTopN. simpl. fold VS.
    destruct (decide (length Params ≤ length VS)) as [_|]; [|contradiction].
    fold Args. simpl. rewrite Hlive. simpl. rewrite Hwrap. simpl.
    fold Ctx. rewrite Hcall.
    destruct (decide (Err ≠ ErrCode.Success)) as [_|]; [|contradiction].
    destruct (decide (Err ≠ ErrCode.Terminated)) as [Ht|Ht];
      destruct (decide (Err = ErrCode.Terminated)) as [Ht'|Ht'];
      try contradiction; simpl.
    + eexists. split; [reflexivity|]. simpl.
      rewrite <- !app_assoc. auto.
    + eexists. split; [reflexivity|]. simpl.
      rewrite <- !app_assoc, app_nil_r. auto.
  - intros R E' Hrun.
    apply runCompiledFunction_inv in Hrun
      as (_ & Mod' & Wrap' & Hlive' & Hwrap' & Htr & Hctx & _ & Hrun).
    simpl in Hlive', Htr, Hctx, Hrun. fold VS in Htr, Hrun.
    rewrite Hlive in Hlive'. injection Hlive' as <-.
    rewrite Hwrap in Hwrap'. injection Hwrap' as <-.
    fold Args Ctx in Htr, Hrun. rewrite Hcall in Hrun.
    split; [exact Htr|]. split; [exact Hctx|].
    intros ->. destruct (decide _) as [_|]; [|contradiction].
    destruct Hrun as (Hlog & PC & -> & _). eauto.
Qed.

(** S5: the compiled callee that loads out of bounds. *)
Lemma enterFunction_compiled_fault_witness :
  ∃ E',
    enterFunction Scenario.theStore Scenario.trappingFunc Scenario.BackPos
      false Scenario.atCall = Done (Unexpect ErrCode.MemoryOutOfBounds) E'
    ∧ LogSink E' = [ErrCode.MemoryOutOfBounds]
    ∧ Trace E' =
        [EvStoreGet KModule 0; EvFaultProtect;
         EvWrapper {| Memory := 4096; Globals := [8192%Z] |}
                   [Scenario.i32 7; Scenario.i32 5]]
    ∧ ExecutionContext E' = {| Memory := 4096; Globals := [8192%Z] |}.
Proof.
  apply (enterFunction_compiled_fault Scenario.theStore Scenario.trappingFunc
           (λ _ _ Rets, (ErrCode.MemoryOutOfBounds, Rets)) Scenario.BackPos
           false Scenario.atCall Scenario.theModule Scenario.trampoline
           ErrCode.MemoryOutOfBounds [ValVariant_default]).
  - reflexivity.
  - reflexivity.
  - reflexivity.
  - simpl. lia.
  - simpl. lia.
  - simpl. lia.
  - reflexivity.
  - discriminate.
Defined.

(** A compiled callee that returns its first argument: [7, 5] becomes [7]
    and the call returns to the caller-supplied position. *)
Example compiled_call_returns :
  ∃ E', enterFunction Scenario.theStore Scenario.firstArgFunc Scenario.BackPos
          false Scenario.atCall = Done (Expected Scenario.BackPos) E'
        ∧ operands E' = [Scenario.i32 7]
        ∧ labels E' = []
        ∧ LogSink E' = [].
Proof. eexists. vm_compute. repeat split. Qed.

(** ** Branches *)

(** The arity of a block type depends on the store and on the frame stack
    only, and leaves the stacks alone. *)
Lemma getBlockArity_frames (S : StoreManager) (BType : BlockType)
    (E E0 E1 : Executor) (Sig : nat * nat) :
  getBlockArity S BType E = Done Sig E0 →
  frames E1 = frames E →
  ∃ E2, getBlockArity S BType E1 = Done Sig E2 ∧ StackMgr E2 = StackMgr E1.
Proof.
  intros Hsig Hframes. destruct BType as [T|Idx]; simpl in *.
  - injection Hsig as <- _. eexists. split; reflexivity.
  - revert Hsig.
    unfold currentModule, StoreMgr_getModule, ModInst_getFuncType, emit,
      unchecked, bind, ret, askStack, modify, undefined,
      StackManager.getModuleAddr.
    rewrite Hframes.
    destruct (last _ ≫= StackManager.ModAddr) as [Addr|]; simpl;
      [|intros Hu; discriminate Hu].
    destruct (Modules S !! Addr) as [Mod|]; simpl;
      [|intros Hu; discriminate Hu].
    destruct (FuncTypes Mod !! Idx) as [FT|]; simpl;
      [|intros Hu; discriminate Hu].
    intros [= <- _]. eexists. split; reflexivity.
Qed.

(** C5. With the target label [L] at depth [Cnt] and enough operand values
    for it: [branchToLabel] removes exactly the [Cnt + 1] topmost labels; for
    a label without loop-body PC the new PC is the continuation of [L]; for
    a loop label it then pushes one label whose entry and exit arity are the
    entry arity of the loop's block type, whose continuation is the
    continuation of [L] and whose loop-body PC is that of [L], and the new
    PC is the loop-body PC. *)
Theorem branchToLabel_pops_and_reenters (S : StoreManager) (Cnt : nat)
    (PC : iterator) (E : Executor) (L : StackManager.Label) :
  let SM := StackMgr E in
  let Labels := StackManager.LabelStack SM in
  StackManager.getLabelWithCount Cnt SM = Some L →
  (Z.of_nat Cnt + 1 < 4294967296)%Z →
  StackManager.LabelVStackOff L + StackManager.keptArity L
    ≤ length (StackManager.ValueStack SM) →
  Cnt + 1 ≤ length Labels
  ∧ match StackManager.Cont L with
    | None =>
        ∃ E', branchToLabel S Cnt PC E
                = Done (Expected tt, StackManager.From L) E'
              ∧ labels E' = take (length Labels - (Cnt + 1)) Labels
    | Some LoopIt =>
        ∀ Instr Entry Exit E0,
          deref LoopIt = Some Instr →
          getBlockArity S (getBlockType Instr) E = Done (Entry, Exit) E0 →
          ∃ E' Off,
            branchToLabel S Cnt PC E = Done (Expected tt, LoopIt) E'
            ∧ labels E' =
                take (length Labels - (Cnt + 1)) Labels ++
                [{| StackManager.EntryArity := Entry;
                    StackManager.ExitArity := Entry;
                    StackManager.LabelVStackOff := Off;
                    StackManager.From := StackManager.From L;
                    StackManager.Cont := Some LoopIt |}]
    end.
Proof.
  intros SM Labels HL Hcnt Hvals.
  assert (Hdepth : Cnt + 1 ≤ length Labels).
  { unfold StackManager.getLabelWithCount in HL. fold Labels in HL.
    destruct (decide (Cnt < length Labels)); [lia | discriminate]. }
  split; [exact Hdepth|].
  set (VS := StackManager.ValueStack SM) in *.
  assert (Hpop : StackManager.popLabel (u32_add Cnt 1) SM =
    Some (StackManager.From L,
          {| StackManager.ValueStack :=
               take (StackManager.LabelVStackOff L) VS ++
               drop (length VS - StackManager.keptArity L) VS;
             StackManager.LabelStack := take (length Labels - (Cnt + 1)) Labels;
             StackManager.FrameStack := StackManager.FrameStack SM |})).
  { rewrite u32_add_small by (simpl; lia). rewrite Nat.add_1_r.
    unfold StackManager.popLabel. rewrite HL. simpl.
    unfold StackManager.eraseValues. fold VS.
    destruct (decide _) as [_|]; [|contradiction]. reflexivity. }
  set (SM' := {| StackManager.ValueStack := _; StackManager.LabelStack := _;
                 StackManager.FrameStack := _ |}) in Hpop.
  assert (Heq : branchToLabel S Cnt PC E =
    match StackManager.Cont L with
    | Some LoopIt =>
        let* Instr := unchecked (deref LoopIt) in
        let* BlockSig := getBlockArity S (getBlockType Instr) in
        onStack (StackManager.pushLabel BlockSig.1 BlockSig.1
                   (StackManager.From L) (Some LoopIt)) >>
        ret (Expected tt, LoopIt)
    | None => ret (Expected tt, StackManager.From L)
    end (setStackMgr SM' E)).
  { unfold branchToLabel, bind at 1, askStack. fold SM. rewrite HL.
    unfold bind at 1, popStack. fold SM. rewrite Hpop. reflexivity. }
  rewrite Heq. clear Heq.
  destruct (StackManager.Cont L) as [LoopIt|].
  - intros Instr Entry Exit E0 Hderef Hsig.
    unfold bind at 1, unchecked. rewrite Hderef. unfold ret at 1.
    destruct (getBlockArity_frames S _ E E0 (setStackMgr SM' E) _ Hsig eq_refl)
      as (E2 & Hsig2 & Hsm2).
    rewrite (bind_run _ _ _ _ _ Hsig2).
    unfold bind, onStack, modify, ret. simpl.
    eexists _, _. split; [reflexivity|]. simpl. rewrite Hsm2. reflexivity.
  - eexists. split; reflexivity.
Qed.

(** S3: the branch at depth 1 out of the block inside the loop re-enters the
    loop of block type 0, whose entry arity is 2: two labels are popped, one
    is pushed, and the new PC is the loop header. *)
Lemma branchToLabel_pops_and_reenters_witness :
  ∃ E' Off,
    branchToLabel Scenario.theStore 1 Scenario.BackPos Scenario.inLoop
      = Done (Expected tt, Scenario.loopHeader) E'
    ∧ labels E' =
        take 1 (labels Scenario.inLoop) ++
        [{| StackManager.EntryArity := 2;
            StackManager.ExitArity := 2;
            StackManager.LabelVStackOff := Off;
            StackManager.From := {| View := Scenario.loopBody; Pos := 5 |};
            StackManager.Cont := Some Scenario.loopHeader |}].
Proof.
  destruct (branchToLabel_pops_and_reenters Scenario.theStore 1
              Scenario.BackPos Scenario.inLoop Scenario.loopLabel)
    as [_ Hloop].
  - reflexivity.
  - simpl. lia.
  - vm_compute. lia.
  - exact (Hloop {| getOpCode := 3; getBlockType := BlockTypeIdx 0 |} 2 1 _
             eq_refl eq_refl).
Defined.

(** S3 in numbers: the two topmost values survive the branch to the loop,
    what the loop and the block had below them is discarded. *)
Example branch_in_loop :
  ∃ E', branchToLabel Scenario.theStore 1 Scenario.BackPos Scenario.inLoop
          = Done (Expected tt, Scenario.loopHeader) E'
        ∧ operands E' = [Scenario.i32 1; Scenario.i32 4; Scenario.i32 5]
        ∧ length (labels E') = 2.
Proof. eexists. vm_compute. repeat split. Qed.

(** S6: the block type that is type index 0, [(i32, i32) → (i64)]. *)
Example block_arity_of_type_index :
  ∃ E', getBlockArity Scenario.theStore (BlockTypeIdx 0) Scenario.inLoop
          = Done (2, 1) E'.
Proof. eexists. vm_compute. reflexivity. Qed.

Example block_arity_of_value_type :
  getBlockArity Scenario.theStore (BlockValType ValType.None) Scenario.atCall
    = Done (0, 0) Scenario.atCall
  ∧ getBlockArity Scenario.theStore (BlockValType ValType.F64) Scenario.atCall
    = Done (0, 1) Scenario.atCall.
Proof. split; reflexivity. Qed.

(** ** The driver *)

Section DriverFacts.
Import Driver.

Variables (stof stod : string → option Z) (absolute : string → string).
Context {VM : Type} (Ops : VMOps VM).

(** C9. In command mode the exit code of the driver is the exit code of
    the WASI environment after the run when the run succeeded or failed
    with [Terminated], and [EXIT_FAILURE] for every other error. *)
Theorem command_mode_exit_code (CL : CommandLine) (V : VM) :
  ParseOk CL = true → isVersion CL = false → Reactor CL = false →
  let Ran := runWasmFile Ops V (absolute (SoName CL)) "_start" in
  let Code := main stof stod absolute Ops CL V in
  ((∃ Vals, Ran.1 = Expected Vals) ∨ Ran.1 = Unexpect ErrCode.Terminated →
     Code = Some (getExitCode Ops Ran.2))
  ∧ (∀ Err, Ran.1 = Unexpect Err → Err ≠ ErrCode.Terminated →
       Code = Some EXIT_FAILURE).
Proof.
  intros Hparse Hversion Hreactor Ran Code.
  unfold Code, main, commandMode. rewrite Hparse, Hversion, Hreactor. simpl.
  fold Ran. destruct Ran as [[Vals|Err] V1]; simpl.
  - split; [reflexivity|]. intros Err Hbad. discriminate.
  - split.
    + intros [[Vals Hbad]|[= ->]]; [discriminate|]. reflexivity.
    + intros Err' [= <-] Hne.
      destruct (decide (Err = ErrCode.Terminated)); [contradiction|reflexivity].
Qed.

Lemma typedArgs_length (Ps : list ValType) (Rest : list string)
    (Vs : list ValVariant) (Ts : list ValType) :
  typedArgs stof stod Ps Rest = Some (Vs, Ts) →
  length Vs = length Ts ∧ length Vs ≤ length Ps.
Proof.
  revert Rest Vs Ts. induction Ps as [|T Ps IH]; intros Rest Vs Ts; simpl.
  - intros [= <- <-]. simpl. lia.
  - destruct Rest as [|A Rest]; [intros [= <- <-]; simpl; lia|].
    destruct T; simpl; intros Hargs; try (apply IH in Hargs; lia).
    all: match type of Hargs with
         | (?p ≫= _) = _ =>
             destruct p as [Value|]; simpl in Hargs; [|discriminate]
         end.
    all: destruct (typedArgs stof stod Ps Rest) as [[Vs' Ts']|] eqn:Hrec;
      simpl in Hargs; [|discriminate].
    all: injection Hargs as <- <-; destruct (IH _ _ _ Hrec); simpl; lia.
Qed.

Lemma extraArgs_lookup (Extra : list string)
    (Vs : list ValVariant) (Ts : list ValType) :
  extraArgs Extra = Some (Vs, Ts) →
  ∀ J A, Extra !! J = Some A →
    ∃ Value, stoll A = Some Value
             ∧ Vs !! J = Some (mkVal ValType.I64 (to_uint64 Value))
             ∧ Ts !! J = Some ValType.F64.
Proof.
  revert Vs Ts. induction Extra as [|A0 Extra IH]; intros Vs Ts; simpl.
  - intros _ J A Hbad. discriminate.
  - intros Hargs.
    apply bind_Some in Hargs as (Value & Hvalue & Hargs).
    destruct (extraArgs Extra) as [[Vs' Ts']|] eqn:Hrec; simpl in Hargs;
      [|discriminate].
    injection Hargs as <- <-.
    intros [|J] A; simpl.
    + intros [= <-]. eauto.
    + apply (IH _ _ eq_refl).
Qed.

(** C10. When the argument vectors of reactor mode are built, every
    command-line argument at a position past the declared parameters
    ([Arguments] holds the function name at position 0) has been parsed by
    [std::stoll] and stored as a 64-bit integer, and the entry of the
    argument-type vector that goes with it is [F64]. *)
Theorem reactor_extra_args_typed_F64 (Ps : list ValType)
    (Arguments : list string) (FuncArgs : list ValVariant)
    (FuncArgTypes : list ValType) :
  reactorArgs stof stod Ps Arguments = Some (FuncArgs, FuncArgTypes) →
  ∃ K, K ≤ length Ps ∧
    ∀ I A, length Ps + 1 ≤ I → Arguments !! I = Some A →
      ∃ Value,
        stoll A = Some Value
        ∧ FuncArgs !! (K + (I - (length Ps + 1)))
            = Some (mkVal ValType.I64 (to_uint64 Value))
        ∧ FuncArgTypes !! (K + (I - (length Ps + 1))) = Some ValType.F64.
Proof.
  unfold reactorArgs. intros Hargs.
  destruct (typedArgs stof stod Ps (drop 1 Arguments)) as [[Vs1 Ts1]|] eqn:H1;
    simpl in Hargs; [|discriminate].
  destruct (extraArgs (drop (length Ps + 1) Arguments)) as [[Vs2 Ts2]|] eqn:H2;
    simpl in Hargs; [|discriminate].
  injection Hargs as <- <-.
  destruct (typedArgs_length _ _ _ _ H1) as [Hlen Hle].
  exists (length Vs1). split; [exact Hle|].
  intros I A HI HA.
  destruct (extraArgs_lookup _ _ _ H2 (I - (length Ps + 1)) A)
    as (Value & Hvalue & HV & HT).
  { rewrite lookup_drop. rewrite <- HA. f_equal. lia. }
  exists Value. split; [exact Hvalue|].
  rewrite !lookup_app_r by lia.
  replace (length Vs1 + _ - length Vs1) with (I - (length Ps + 1)) by lia.
  replace (length Vs1 + _ - length Ts1) with (I - (length Ps + 1)) by lia.
  auto.
Qed.

End DriverFacts.

(** [proc_exit(42)] in command mode: the run ends with [Terminated] and the
    driver exits with 42. *)
Lemma command_mode_exit_code_witness :
  Driver.main Scenario.noFloat Scenario.noFloat id Scenario.exitingVM
    Scenario.commandLine 0%Z = Some 42%Z.
Proof.
  refine (proj1 (command_mode_exit_code Scenario.noFloat Scenario.noFloat id
                   Scenario.exitingVM Scenario.commandLine 0%Z
                   eq_refl eq_refl eq_refl) _).
  right. reflexivity.
Defined.

(** [f -1 5 -2] for a function [f] of one [i32] parameter: the two surplus
    arguments are parsed as integers and declared [F64]. *)
Example reactor_args_of_surplus :
  Driver.reactorArgs Scenario.noFloat Scenario.noFloat [ValType.I32]
    ["f"; "-1"; "5"; "-2"]%string
  = Some ([Driver.mkVal ValType.I32 4294967295;
           Driver.mkVal ValType.I64 5;
           Driver.mkVal ValType.I64 18446744073709551614],
          [ValType.I32; ValType.F64; ValType.F64]).
Proof. reflexivity. Qed.

Lemma reactor_extra_args_typed_F64_witness :
  ∃ K, K ≤ 1 ∧
    ∀ I A, 1 + 1 ≤ I → ["f"; "-1"; "5"; "-2"]%string !! I = Some A →
      ∃ Value,
        Driver.stoll A = Some Value
        ∧ [Driver.mkVal ValType.I32 4294967295;
           Driver.mkVal ValType.I64 5;
           Driver.mkVal ValType.I64 18446744073709551614]
            !! (K + (I - (1 + 1)))
          = Some (Driver.mkVal ValType.I64 (Driver.to_uint64 Value))
        ∧ [ValType.I32; ValType.F64; ValType.F64] !! (K + (I - (1 + 1)))
          = Some ValType.F64.
Proof.
  apply (reactor_extra_args_typed_F64 Scenario.noFloat Scenario.noFloat
           [ValType.I32] ["f"; "-1"; "5"; "-2"]%string).
  reflexivity.
Defined.

(** * Further properties of the executor *)

(** ** Instance lookup through a user frame *)

Ltac run_user_lookup Hlast Hmod Hlive :=
  unfold currentModule, StoreMgr_getModule, emit, unchecked, bind, ret,
    askStack, modify, StackManager.isTopDummyFrame,
    StackManager.getModuleAddr, StackManager.isDummy, traced, lookupEvents;
  rewrite Hlast; simpl; rewrite Hmod; simpl;
  rewrite Hlast; simpl; rewrite Hmod; simpl; rewrite Hlive; simpl.

(** X1. With a user frame on top whose module is in the store, each of the
    five lookups returns the instance at the store address that the module's
    index space gives for [Idx]: no instance when the index is not mapped
    (the store's table of the kind is then not consulted) or when the
    address is not in the store.  The lookup asks for the module, the index
    and the instance, in this order, and changes nothing else. *)
Theorem lookups_resolve_through_the_frame (S : StoreManager) (Idx : nat)
    (E : Executor) (F : StackManager.Frame) (a : nat) (Mod : ModuleInstance) :
  last (frames E) = Some F →
  StackManager.ModAddr F = Some a →
  Modules S !! a = Some Mod →
  getTabInstByIdx S Idx E =
    Done (TableAddrs Mod !! Idx ≫= λ Addr, Tables S !! Addr)
         (traced (lookupEvents KTable a Idx (TableAddrs Mod !! Idx)) E)
  ∧ getMemInstByIdx S Idx E =
    Done (MemAddrs Mod !! Idx ≫= λ Addr, Memories S !! Addr)
         (traced (lookupEvents KMemory a Idx (MemAddrs Mod !! Idx)) E)
  ∧ getGlobInstByIdx S Idx E =
    Done (GlobalAddrs Mod !! Idx ≫= λ Addr, Globs S !! Addr)
         (traced (lookupEvents KGlobal a Idx (GlobalAddrs Mod !! Idx)) E)
  ∧ getElemInstByIdx S Idx E =
    Done (ElemAddrs Mod !! Idx ≫= λ Addr, Elements S !! Addr)
         (traced (lookupEvents KElement a Idx (ElemAddrs Mod !! Idx)) E)
  ∧ getDataInstByIdx S Idx E =
    Done (DataAddrs Mod !! Idx ≫= λ Addr, Datas S !! Addr)
         (traced (lookupEvents KData a Idx (DataAddrs Mod !! Idx)) E).
Proof.
  intros Hlast Hmod Hlive. repeat split.
  - unfold getTabInstByIdx, ModInst_getTableAddr, StoreMgr_getTable.
    run_user_lookup Hlast Hmod Hlive.
    destruct (TableAddrs Mod !! Idx); reflexivity.
  - unfold getMemInstByIdx, ModInst_getMemAddr, StoreMgr_getMemory.
    run_user_lookup Hlast Hmod Hlive.
    destruct (MemAddrs Mod !! Idx); reflexivity.
  - unfold getGlobInstByIdx, ModInst_getGlobalAddr, StoreMgr_getGlobal.
    run_user_lookup Hlast Hmod Hlive.
    destruct (GlobalAddrs Mod !! Idx); reflexivity.
  - unfold getElemInstByIdx, ModInst_getElemAddr, StoreMgr_getElement.
    run_user_lookup Hlast Hmod Hlive.
    destruct (ElemAddrs Mod !! Idx); reflexivity.
  - unfold getDataInstByIdx, ModInst_getDataAddr, StoreMgr_getData.
    run_user_lookup Hlast Hmod Hlive.
    destruct (DataAddrs Mod !! Idx); reflexivity.
Qed.

(** Inside a function of the module of S6: memory 0 is found at store
    address 0; the module has no table, and the store's tables are not
    asked. *)
Lemma lookups_resolve_through_the_frame_witness :
  getMemInstByIdx Scenario.theStore 0 Scenario.inFunction =
    Done (Some {| MemData := [] |})
         (traced [EvStoreGet KModule 0; EvModuleIndex KMemory 0;
                  EvStoreGet KMemory 0] Scenario.inFunction)
  ∧ getTabInstByIdx Scenario.theStore 0 Scenario.inFunction =
    Done None
         (traced [EvStoreGet KModule 0; EvModuleIndex KTable 0]
                 Scenario.inFunction).
Proof.
  destruct (lookups_resolve_through_the_frame Scenario.theStore 0
              Scenario.inFunction
              {| StackManager.ModAddr := Some 0; StackManager.Locals := 1;
              StackManager.Arity := 1; StackManager.IsTailCall := false;
              StackManager.VStackOff := 0; StackManager.LStackOff := 0 |}
              0 Scenario.theModule eq_refl eq_refl eq_refl)
    as (Htab & Hmem & _).
  split; [exact Hmem|exact Htab].
Defined.

(** ** Block arity *)

Lemma getBlockArity_preserves (S : StoreManager) (BType : BlockType)
    (E E' : Executor) (Sig : nat * nat) :
  getBlockArity S BType E = Done Sig E' →
  StackMgr E' = StackMgr E ∧ Stat E' = Stat E ∧ LogSink E' = LogSink E
  ∧ ExecutionContext E' = ExecutionContext E
  ∧ CurrentStore E' = CurrentStore E
  ∧ hostRuns (Trace E') = hostRuns (Trace E).
Proof.
  destruct BType as [T|Idx]; simpl.
  - intros [= _ <-]. auto 10.
  - unfold currentModule, StoreMgr_getModule, ModInst_getFuncType, emit,
      unchecked, bind, ret, askStack, modify, undefined.
    intros H. repeat case_match; simplify_eq/=; trace_simpl; auto 10.
Qed.

(** X2. For a block type given by a type index, under a user frame whose
    module is in the store and has a type at that index, [getBlockArity] is
    (number of parameters, number of results) of that type; it asks the
    store for the module and the module for the type, nothing else. *)
Theorem getBlockArity_of_a_type_index (S : StoreManager) (Idx : nat)
    (E : Executor) (F : StackManager.Frame) (a : nat) (Mod : ModuleInstance)
    (FuncType : FunctionType) :
  last (frames E) = Some F →
  StackManager.ModAddr F = Some a →
  Modules S !! a = Some Mod →
  FuncTypes Mod !! Idx = Some FuncType →
  (Z.of_nat (length (getParamTypes FuncType)) < 4294967296)%Z →
  (Z.of_nat (length (getReturnTypes FuncType)) < 4294967296)%Z →
  getBlockArity S (BlockTypeIdx Idx) E =
    Done (length (getParamTypes FuncType), length (getReturnTypes FuncType))
         (traced [EvStoreGet KModule a; EvModuleIndex KFuncType Idx] E).
Proof.
  intros Hlast Hmod Hlive Htype Hp Hr. simpl.
  unfold currentModule, StoreMgr_getModule, ModInst_getFuncType, emit,
    unchecked, bind, ret, askStack, modify, StackManager.getModuleAddr, traced.
  rewrite Hlast. simpl. rewrite Hmod. simpl. rewrite Hlive. simpl.
  rewrite Htype. simpl.
  rewrite (u32_of_size_small _ Hp), (u32_of_size_small _ Hr). reflexivity.
Qed.

(** S6: the type [(i32, i32) → (i64)] at index 0. *)
Lemma getBlockArity_of_a_type_index_witness :
  getBlockArity Scenario.theStore (BlockTypeIdx 0) Scenario.inFunction =
    Done (2, 1)
         (traced [EvStoreGet KModule 0; EvModuleIndex KFuncType 0]
                 Scenario.inFunction).
Proof.
  apply (getBlockArity_of_a_type_index Scenario.theStore 0
           Scenario.inFunction
           {| StackManager.ModAddr := Some 0; StackManager.Locals := 1;
              StackManager.Arity := 1; StackManager.IsTailCall := false;
              StackManager.VStackOff := 0; StackManager.LStackOff := 0 |}
           0 Scenario.theModule
           (Scenario.noType [ValType.I32; ValType.I32] [ValType.I64]));
    reflexivity.
Defined.

(** X3. [getBlockArity] only reads: whenever it returns, the stacks, the
    collector, the log, the context, the current store and the host calls
    made are what they were.  For a block type given by a value type nothing
    is consulted at all (the executor is unchanged, whatever frame is on
    top): no parameter, and one result unless the type is [None]. *)
Theorem getBlockArity_only_reads (S : StoreManager) (BType : BlockType)
    (E E' : Executor) (Sig : nat * nat) :
  getBlockArity S BType E = Done Sig E' →
  StackMgr E' = StackMgr E ∧ Stat E' = Stat E ∧ LogSink E' = LogSink E
  ∧ ExecutionContext E' = ExecutionContext E
  ∧ CurrentStore E' = CurrentStore E
  ∧ hostRuns (Trace E') = hostRuns (Trace E)
  ∧ (∀ T, BType = BlockValType T →
       E' = E ∧ Sig.1 = 0 ∧ (Sig.2 = 0 ↔ T = ValType.None) ∧ Sig.2 ≤ 1).
Proof.
  intros Hsig.
  destruct (getBlockArity_preserves _ _ _ _ _ Hsig)
    as (H1 & H2 & H3 & H4 & H5 & H6).
  repeat (split; [assumption|]).
  intros T ->. simpl in Hsig. injection Hsig as <- <-. simpl.
  destruct (decide (T = ValType.None)) as [->|Hn]; simpl;
    repeat split; auto; try lia.
  all: intros H0; try discriminate H0; try contradiction.
Qed.

(** A block of result type [i32], asked for before any call: neither the
    store nor a frame is consulted. *)
Lemma getBlockArity_only_reads_witness :
  Scenario.atCall = Scenario.atCall ∧ (0, 1).1 = 0
  ∧ ((0, 1).2 = 0 ↔ ValType.I32 = ValType.None) ∧ (0, 1).2 ≤ 1.
Proof.
  destruct (getBlockArity_only_reads Scenario.theStore
              (BlockValType ValType.I32) Scenario.atCall Scenario.atCall
              (0, 1) eq_refl) as (_ & _ & _ & _ & _ & _ & Hval).
  exact (Hval ValType.I32 eq_refl).
Defined.

(** ** Branches *)

Lemma popLabel_frames (Cnt : nat) (SM SM' : StackManager.StackManager)
    (PC : iterator) :
  StackManager.popLabel Cnt SM = Some (PC, SM') →
  StackManager.FrameStack SM' = StackManager.FrameStack SM.
Proof.
  unfold StackManager.popLabel. destruct Cnt as [|Cnt]; [discriminate|].
  intros H. apply bind_Some in H as (L & _ & H).
  apply bind_Some in H as (Vs & _ & H). injection H as _ <-. reflexivity.
Qed.

(** X4. [branchToLabel] never reports an error: whenever it returns, its
    result is the success value; it leaves the frame stack, the collector,
    the log, the context and the current store as they were and runs no host
    function. *)
Theorem branchToLabel_never_fails (S : StoreManager) (Cnt : nat)
    (PC PC' : iterator) (E E' : Executor) (R : Expect unit) :
  branchToLabel S Cnt PC E = Done (R, PC') E' →
  R = Expected tt
  ∧ frames E' = frames E
  ∧ Stat E' = Stat E ∧ LogSink E' = LogSink E
  ∧ ExecutionContext E' = ExecutionContext E
  ∧ CurrentStore E' = CurrentStore E
  ∧ hostRuns (Trace E') = hostRuns (Trace E).
Proof.
  unfold branchToLabel. intros Hrun.
  apply bind_Done in Hrun as (L & E0 & HL & Hrun).
  unfold askStack in HL.
  destruct (StackManager.getLabelWithCount Cnt (StackMgr E)); [|discriminate].
  injection HL as -> <-.
  apply bind_Done in Hrun as (PC1 & E1 & Hpop & Hrun).
  unfold popStack in Hpop.
  destruct (StackManager.popLabel _ _) as [[PC2 SM1]|] eqn:Hlab;
    [|discriminate].
  injection Hpop as -> <-. apply popLabel_frames in Hlab.
  destruct (StackManager.Cont L) as [LoopIt|].
  - apply bind_Done in Hrun as (Instr & E2 & Hinstr & Hrun).
    unfold unchecked in Hinstr.
    destruct (deref LoopIt); [|discriminate]. injection Hinstr as -> <-.
    apply bind_Done in Hrun as (Sig & E3 & Hsig & Hrun).
    apply getBlockArity_preserves in Hsig as (H1 & H2 & H3 & H4 & H5 & H6).
    unfold onStack, modify, bind, ret in Hrun. injection Hrun as <- _ <-.
    simpl in *. rewrite H1. simpl. auto 10.
  - injection Hrun as <- _ <-. simpl. auto 10.
Qed.

(** S3: the branch out of the inner block to the loop. *)
Lemma branchToLabel_never_fails_witness :
  frames Scenario.afterBranch = frames Scenario.inLoop
  ∧ LogSink Scenario.afterBranch = LogSink Scenario.inLoop.
Proof.
  destruct (branchToLabel_never_fails Scenario.theStore 1
              {| View := Scenario.loopBody; Pos := 4 |} Scenario.loopHeader
              Scenario.inLoop Scenario.afterBranch (Expected tt) eq_refl)
    as (_ & Hframes & _ & Hlog & _).
  split; [exact Hframes|exact Hlog].
Defined.

(** X5. After a branch to a loop label, the label on top is that loop
    again: branching to depth 0 from there (with the loop's parameters on the
    operand stack) goes to the same loop-body PC and leaves the three stacks
    exactly as the first branch left them. *)
Theorem branch_to_loop_is_repeatable (S : StoreManager) (Cnt : nat)
    (PC PC1 : iterator) (E E1 : Executor) (L : StackManager.Label)
    (LoopIt : iterator) (R : Expect unit) :
  StackManager.getLabelWithCount Cnt (StackMgr E) = Some L →
  StackManager.Cont L = Some LoopIt →
  branchToLabel S Cnt PC E = Done (R, PC1) E1 →
  (∀ L1, last (labels E1) = Some L1 →
         StackManager.EntryArity L1 ≤ length (operands E1)) →
  PC1 = LoopIt
  ∧ ∃ E2, branchToLabel S 0 PC1 E1 = Done (Expected tt, LoopIt) E2
          ∧ StackMgr E2 = StackMgr E1.
Proof.
  intros HL Hloop Hrun Harity. unfold branchToLabel in Hrun.
  apply bind_Done in Hrun as (L0 & E0 & HL0 & Hrun).
  unfold askStack in HL0. rewrite HL in HL0. injection HL0 as <- <-.
  apply bind_Done in Hrun as (PC2 & Ea & Hpop & Hrun).
  unfold popStack in Hpop.
  destruct (StackManager.popLabel _ _) as [[PC2' SM1]|]; [|discriminate].
  injection Hpop as -> <-. rewrite Hloop in Hrun.
  apply bind_Done in Hrun as (Instr & Eb & Hinstr & Hrun).
  unfold unchecked in Hinstr.
  destruct (deref LoopIt) as [Instr'|] eqn:Hderef; [|discriminate].
  injection Hinstr as -> <-.
  apply bind_Done in Hrun as (Sig & E3 & Hsig & Hrun).
  destruct (getBlockArity_preserves _ _ _ _ _ Hsig) as (Hsm & _).
  simpl in Hsm.
  unfold onStack, modify, bind, ret in Hrun. injection Hrun as <- <- <-.
  split; [reflexivity|].
  set (k := Sig.1) in *.
  set (Top := {| StackManager.EntryArity := k; StackManager.ExitArity := k;
                 StackManager.LabelVStackOff :=
                   length (StackManager.ValueStack SM1) - k;
                 StackManager.From := PC2;
                 StackManager.Cont := Some LoopIt |}).
  assert (Hk : k ≤ length (StackManager.ValueStack SM1)).
  { specialize (Harity Top). simpl in Harity. rewrite Hsm in Harity.
    simpl in Harity. rewrite last_snoc in Harity. apply Harity. reflexivity. }
  set (E1 := setStackMgr _ E3).
  assert (Hget : StackManager.getLabelWithCount 0 (StackMgr E1) = Some Top).
  { unfold StackManager.getLabelWithCount. simpl. rewrite Hsm. simpl.
    rewrite length_app. simpl.
    destruct (decide _) as [_|Hn]; [|lia].
    replace (length (StackManager.LabelStack SM1) + 1 - 1 - 0)
      with (length (StackManager.LabelStack SM1)) by lia.
    apply list_lookup_middle. reflexivity. }
  assert (Hpop : StackManager.popLabel (u32_add 0 1) (StackMgr E1) =
                 Some (PC2, SM1)).
  { change (u32_add 0 1) with 1. unfold StackManager.popLabel.
    rewrite Hget. simpl. unfold StackManager.eraseValues. simpl.
    rewrite Hsm. simpl.
    change (StackManager.keptArity Top) with k.
    destruct (decide _) as [_|Hn]; [|lia]. simpl.
    rewrite take_drop, length_app. simpl.
    replace (length (StackManager.LabelStack SM1) + 1 - 1)
      with (length (StackManager.LabelStack SM1)) by lia.
    rewrite take_app_length. destruct SM1; reflexivity. }
  destruct (getBlockArity_frames S (getBlockType Instr) _ _
              (setStackMgr SM1 E1) _ Hsig eq_refl) as (E4 & Hsig' & Hsm').
  exists (setStackMgr
            (StackManager.pushLabel k k PC2 (Some LoopIt) (StackMgr E4)) E4).
  split.
  - unfold branchToLabel, bind, askStack, popStack.
    rewrite Hget, Hpop. simpl. rewrite Hderef. simpl.
    rewrite Hsig'. reflexivity.
  - simpl. rewrite Hsm'. simpl. rewrite Hsm. reflexivity.
Qed.

(** S3: branching to the loop a second time, from its top. *)
Lemma branch_to_loop_is_repeatable_witness :
  ∃ E2, branchToLabel Scenario.theStore 0 Scenario.loopHeader
          Scenario.afterBranch = Done (Expected tt, Scenario.loopHeader) E2
        ∧ StackMgr E2 = StackMgr Scenario.afterBranch.
Proof.
  refine (proj2 (branch_to_loop_is_repeatable Scenario.theStore 1
                   {| View := Scenario.loopBody; Pos := 4 |}
                   Scenario.loopHeader Scenario.inLoop Scenario.afterBranch
                   Scenario.loopLabel Scenario.loopHeader (Expected tt)
                   eq_refl eq_refl eq_refl _)).
  vm_compute. intros L1 HL1. injection HL1 as <-. simpl. lia.
Defined.

(** ** Function entry: what is left behind *)

(** Through a user frame the memory lookup is defined only when the
    frame's module is in the store. *)
Lemma getMemInstByIdx_inv (S : StoreManager) (Idx : nat) (E E' : Executor)
    (F : StackManager.Frame) (a : nat) (R : option MemoryInstance) :
  last (frames E) = Some F →
  StackManager.ModAddr F = Some a →
  getMemInstByIdx S Idx E = Done R E' →
  ∃ Mod, Modules S !! a = Some Mod
         ∧ R = MemAddrs Mod !! Idx ≫= λ MemAddr, Memories S !! MemAddr.
Proof.
  intros Hlast Hmod Hrun.
  destruct (Modules S !! a) as [Mod|] eqn:Hlive.
  - exists Mod. split; [reflexivity|].
    destruct (getMemInstByIdx_live S Idx E F a Mod Hlast Hmod Hlive)
      as (E2 & Hrun').
    rewrite Hrun in Hrun'. injection Hrun' as -> _. reflexivity.
  - revert Hrun. exec_unfold.
    unfold StackManager.isTopDummyFrame, StackManager.getModuleAddr,
      StackManager.isDummy.
    rewrite Hlast. simpl. rewrite Hmod. simpl.
    rewrite Hlast. simpl. rewrite Hmod, Hlive. simpl.
    intros Hu. discriminate Hu.
Qed.

(** A host callee that has been entered lives in a module of the store. *)
Lemma enterFunction_host_live (S : StoreManager) (Func : FunctionInstance)
    (H : HostFunctionBase) (BackPos : iterator) (Tail : bool)
    (E E' : Executor) (R : Expect iterator) :
  getKind Func = HostFunction H →
  enterFunction S Func BackPos Tail E = Done R E' →
  ∃ Mod, Modules S !! getModuleAddr Func = Some Mod.
Proof.
  intros Hkind Hrun. unfold enterFunction in Hrun. rewrite Hkind in Hrun.
  apply bind_Done in Hrun as ([] & E0 & [= <-] & Hrun).
  apply bind_Done in Hrun as ([] & E1 & [= <-] & Hrun).
  apply bind_Done in Hrun as (Mem & E2 & Hmem & _).
  destruct (pushFrame_top (getModuleAddr Func)
              (u32_of_size (length (getParamTypes (getFuncType Func))))
              (u32_of_size (length (getReturnTypes (getFuncType Func))))
              Tail (StackMgr E)) as (F & Hlast & Hmod).
  eapply getMemInstByIdx_inv in Hmem as (Mod & Hlive & _);
    [eauto | exact Hlast | exact Hmod].
Qed.

(** Lines 61-79: the collector and the stacks after the host function. *)
Lemma runHostFunction_state (H : HostFunctionBase) (Mem : option MemoryInstance)
    (p r : nat) (E E' : Executor) (R : Expect iterator) :
  runHostFunction H Mem p r E = Done R E' →
  let VS := operands E in
  Stat E' =
    (λ St, Statistics.startRecordWasm (Statistics.stopRecordHost St))
      <$> Stat E
  ∧ (∀ Err, R = Unexpect Err →
       StackMgr E' =
         {| StackManager.ValueStack := take (length VS - p) VS;
            StackManager.LabelStack := labels E;
            StackManager.FrameStack := frames E |}).
Proof.
  intros Hrun VS. revert Hrun.
  exec_unfold. unfold StackManager.popTopN. fold VS.
  destruct (decide (p ≤ length VS)) as [Hp|]; [|intros Hu; discriminate Hu].
  simpl.
  destruct (run H Mem _ (replicate r ValVariant_default))
    as [[[]|Err] Rets'];
    simpl; destruct (Stat E) as [St|] eqn:HS; simpl; rewrite ?HS; simpl;
    rewrite ?foldl_push; simpl.
  1,2: destruct (StackManager.popFrame _) as [[PC SM]|]; simpl;
    [|intros Hu; discriminate Hu].
  all: try destruct (decide (Err = ErrCode.ExecutionFailed)).
  all: intros [= <- <-]; simpl; rewrite ?HS; split; try reflexivity.
  all: intros Err' HErr; try discriminate HErr; reflexivity.
Qed.

(** X6. [enterFunction] does not unwind when a host callee fails: when the
    call returns an error the frame stack is the one after [pushFrame] (the
    callee's frame is on top), the label stack has gained the callee's
    boundary label, and the operand stack has lost the arguments or, for the
    [CostLimitExceeded] of a refused charge, is as it was. *)
Theorem error_return_keeps_the_frame (S : StoreManager)
    (Func : FunctionInstance) (H : HostFunctionBase) (BackPos : iterator)
    (IsTailCall : bool) (E E' : Executor) (Err : ErrCode) :
  getKind Func = HostFunction H →
  enterFunction S Func BackPos IsTailCall E = Done (Unexpect Err) E' →
  let p := u32_of_size (length (getParamTypes (getFuncType Func))) in
  let r := u32_of_size (length (getReturnTypes (getFuncType Func))) in
  let VS := operands E in
  frames E' =
    StackManager.FrameStack
      (StackManager.pushFrame (getModuleAddr Func) p r IsTailCall (StackMgr E))
  ∧ (∃ F, last (frames E') = Some F
          ∧ StackManager.ModAddr F = Some (getModuleAddr Func))
  ∧ labels E' =
      labels E ++
      [{| StackManager.EntryArity := 0; StackManager.ExitArity := r;
          StackManager.LabelVStackOff := length VS;
          StackManager.From := BackPos; StackManager.Cont := None |}]
  ∧ (operands E' = take (length VS - p) VS
     ∨ (Err = ErrCode.CostLimitExceeded ∧ operands E' = VS)).
Proof.
  intros Hk Hrun p r VS.
  assert (Hstack :
    StackMgr E' =
      {| StackManager.ValueStack := take (length VS - p) VS;
         StackManager.LabelStack :=
           labels E ++
           [{| StackManager.EntryArity := 0; StackManager.ExitArity := r;
               StackManager.LabelVStackOff := length VS - 0;
               StackManager.From := BackPos; StackManager.Cont := None |}];
         StackManager.FrameStack :=
           StackManager.FrameStack
             (StackManager.pushFrame (getModuleAddr Func) p r IsTailCall
                (StackMgr E)) |}
    ∨ (Err = ErrCode.CostLimitExceeded
       ∧ StackMgr E' =
           StackManager.pushLabel 0 r BackPos None
             (StackManager.pushFrame (getModuleAddr Func) p r IsTailCall
                (StackMgr E)))).
  { apply (enterFunction_host_inv _ _ _ _ _ _ _ _ Hk) in Hrun.
    destruct Hrun as [(St & _ & _ & [= ->] & Hsm & _)
                     |(E2 & Mem & Hsm & _ & _ & Hrun)].
    - right. split; [reflexivity|exact Hsm].
    - left. apply runHostFunction_state in Hrun as (_ & Hrun).
      rewrite (Hrun Err eq_refl), Hsm. reflexivity. }
  rewrite Nat.sub_0_r in Hstack.
  assert (Hframes : frames E' =
    StackManager.FrameStack
      (StackManager.pushFrame (getModuleAddr Func) p r IsTailCall
         (StackMgr E))).
  { destruct Hstack as [->|(_ & ->)]; reflexivity. }
  split; [exact Hframes|]. split.
  { rewrite Hframes. apply pushFrame_top. }
  destruct Hstack as [->|(-> & ->)]; simpl.
  - split; [reflexivity|]. left. reflexivity.
  - rewrite Nat.sub_0_r. split; [reflexivity|]. right. split; reflexivity.
Qed.

(** The failing host function called before any other call: its frame and
    its boundary label stay. *)
Lemma error_return_keeps_the_frame_witness :
  let E' := Scenario.afterCall Scenario.faultyFunc Scenario.atCall in
  (∃ F, last (frames E') = Some F ∧ StackManager.ModAddr F = Some 0)
  ∧ labels E' =
      [] ++
      [{| StackManager.EntryArity := 0; StackManager.ExitArity := 0;
          StackManager.LabelVStackOff := 2;
          StackManager.From := Scenario.BackPos;
          StackManager.Cont := None |}].
Proof.
  assert (Hrun : enterFunction Scenario.theStore Scenario.faultyFunc
                   Scenario.BackPos false Scenario.atCall
                 = Done (Unexpect ErrCode.MemoryOutOfBounds)
                     (Scenario.afterCall Scenario.faultyFunc Scenario.atCall))
    by (vm_compute; reflexivity).
  destruct (error_return_keeps_the_frame Scenario.theStore Scenario.faultyFunc
              Scenario.faultyHost Scenario.BackPos false Scenario.atCall
              (Scenario.afterCall Scenario.faultyFunc Scenario.atCall)
              ErrCode.MemoryOutOfBounds eq_refl Hrun)
    as (_ & Htop & Hlabels & _).
  split; [exact Htop|exact Hlabels].
Defined.

(** X7. An ordinary call of a compiled callee whose code returns: the
    result of [enterFunction] is [BackPos], the [|params|] arguments on the
    operand stack are replaced by the result buffer, in order, the label and
    frame stacks are what they were before the call, and nothing is
    logged. *)
Theorem compiled_callee_success (S : StoreManager) (Func : FunctionInstance)
    (Symbol : CompiledCode) (BackPos : iterator) (E : Executor)
    (Mod : ModuleInstance) (Wrap : Wrapper) (Rets' : list ValVariant) :
  let Params := getParamTypes (getFuncType Func) in
  let Results := getReturnTypes (getFuncType Func) in
  let VS := operands E in
  let Args := drop (length VS - length Params) VS in
  let Ctx := {| Memory := MemoryPtr Mod; Globals := GlobalsPtr Mod |} in
  getKind Func = CompiledFunction Symbol →
  Modules S !! getModuleAddr Func = Some Mod →
  getTypeSymbol (getFuncType Func) = Some Wrap →
  (Z.of_nat (length Params) < 4294967296)%Z →
  (Z.of_nat (length Results) < 4294967296)%Z →
  length Params ≤ length VS →
  Wrap Ctx Symbol Args (replicate (length Results) ValVariant_default)
    = (ErrCode.Success, Rets') →
  length Rets' = length Results →
  ∃ E', enterFunction S Func BackPos false E = Done (Expected BackPos) E'
        ∧ operands E' = take (length VS - length Params) VS ++ Rets'
        ∧ labels E' = labels E
        ∧ frames E' = frames E
        ∧ LogSink E' = LogSink E.
Proof.
  intros Params Results VS Args Ctx Hkind Hlive Hwrap Hp Hr Hle Hcall Hlen.
  rewrite (enterFunction_compiled_eq _ _ _ _ _ _ Hkind).
  fold Params Results.
  rewrite (u32_of_size_small _ Hp), (u32_of_size_small _ Hr).
  exec_unfold. unfold StackManager.popTopN. simpl. fold VS.
  destruct (decide (length Params ≤ length VS)) as [_|]; [|contradiction].
  fold Args. simpl. rewrite Hlive. simpl. rewrite Hwrap. simpl.
  fold Ctx. rewrite Hcall.
  destruct (decide (ErrCode.Success ≠ ErrCode.Success)) as [Hbad|_];
    [contradiction|].
  simpl. rewrite foldl_push. simpl.
  rewrite (popFrame_fresh (StackMgr E) (getModuleAddr Func) (length Params)
             (length Results) BackPos).
  fold VS. rewrite length_app, length_take, Hlen.
  destruct (decide _) as [_|Hn]; [|lia]. simpl.
  eexists. split; [reflexivity|]. simpl.
  repeat split.
  rewrite take_app_le by (rewrite length_take; lia).
  rewrite take_take, drop_app_ge by (rewrite length_take; lia).
  rewrite length_take.
  match goal with
  | |- context [drop ?n Rets'] => replace n with 0 by lia
  end.
  rewrite Nat.min_id. reflexivity.
Qed.

(** The compiled function that returns its first argument, called on
    [7, 5]. *)
Lemma compiled_callee_success_witness :
  ∃ E', enterFunction Scenario.theStore Scenario.firstArgFunc Scenario.BackPos
          false Scenario.atCall = Done (Expected Scenario.BackPos) E'
        ∧ operands E' = [] ++ [Scenario.i32 7].
Proof.
  destruct (compiled_callee_success Scenario.theStore Scenario.firstArgFunc
              (λ _ Args _, (ErrCode.Success, take 1 Args)) Scenario.BackPos
              Scenario.atCall Scenario.theModule Scenario.trampoline
              [Scenario.i32 7] eq_refl eq_refl eq_refl eq_refl eq_refl
              (le_n 2) eq_refl eq_refl)
    as (E' & Hrun & Hops & _).
  exists E'. split; [exact Hrun|exact Hops].
Defined.

(** X9. A call of a host callee that returns, tail call or not, has
    invoked the callable at most once: not at all when the attached collector
    refused the charge; otherwise once, with the memory of index 0 of the
    callee's own module (whatever frame was on top before the call) and the
    topmost [|params|] operand values in stack order, and then
    [enterFunction] fails exactly when the callable does, with the
    callable's error. *)
Theorem host_callable_runs_at_most_once (S : StoreManager)
    (Func : FunctionInstance) (H : HostFunctionBase) (BackPos : iterator)
    (IsTailCall : bool) (E E' : Executor) (R : Expect iterator) :
  getKind Func = HostFunction H →
  enterFunction S Func BackPos IsTailCall E = Done R E' →
  let p := u32_of_size (length (getParamTypes (getFuncType Func))) in
  let r := u32_of_size (length (getReturnTypes (getFuncType Func))) in
  let VS := operands E in
  let Args := drop (length VS - p) VS in
  ∃ Mod, Modules S !! getModuleAddr Func = Some Mod
    ∧ let Mem := MemAddrs Mod !! 0 ≫= λ MemAddr, Memories S !! MemAddr in
      (hostRuns (Trace E') = hostRuns (Trace E)
       ∧ (∃ St, Stat E = Some St
                ∧ (Statistics.addCost (getCost H) St).1 = false)
       ∧ R = Unexpect ErrCode.CostLimitExceeded)
      ∨ (hostRuns (Trace E') = hostRuns (Trace E) ++ [(Mem, Args)]
         ∧ (∀ St, Stat E = Some St →
                  (Statistics.addCost (getCost H) St).1 = true)
         ∧ p ≤ length VS
         ∧ match (run H Mem Args (replicate r ValVariant_default)).1 with
           | Unexpect Err => R = Unexpect Err
           | Expected _ => ∃ PC, R = Expected PC
           end).
Proof.
  intros Hkind Hrun p r VS Args.
  destruct (enterFunction_host_live _ _ _ _ _ _ _ _ Hkind Hrun)
    as (Mod & Hlive).
  exists Mod. split; [exact Hlive|]. intros Mem.
  destruct (enterFunction_host_run S Func H BackPos IsTailCall E Mod
              Hkind Hlive) as (E2 & Hsm & Hst & _ & Htr & Heq).
  fold p r Mem in Hsm, Heq. rewrite Heq in Hrun. clear Heq.
  assert (Hops : operands E2 = VS) by (rewrite Hsm; reflexivity).
  assert (Hhost : ∀ E3, StackMgr E3 = StackMgr E2 →
            hostRuns (Trace E3) = hostRuns (Trace E2) →
            runHostFunction H Mem p r E3 = Done R E' →
            hostRuns (Trace E') = hostRuns (Trace E) ++ [(Mem, Args)]
            ∧ p ≤ length VS
            ∧ match (run H Mem Args (replicate r ValVariant_default)).1 with
              | Unexpect Err => R = Unexpect Err
              | Expected _ => ∃ PC, R = Expected PC
              end).
  { intros E3 Hsm3 Htr3 Hrun3.
    apply runHostFunction_inv in Hrun3 as (Hp & Htr' & Hres).
    rewrite Hsm3, Hops in Hp, Htr', Hres. fold Args in Htr', Hres.
    rewrite Htr3, Htr in Htr'.
    split; [exact Htr'|]. split; [exact Hp|].
    destruct (run H Mem Args _) as [[[]|Err] Rets']; simpl.
    - destruct Hres as (_ & PC & -> & _). eauto.
    - destruct Hres as (-> & _). reflexivity. }
  rewrite Hst in Hrun.
  destruct (Stat E) as [St|] eqn:HS.
  - destruct (Statistics.addCost (getCost H) St) as [[] St'] eqn:Hadd.
    + right.
      destruct (Hhost (setStat _ E2) eq_refl eq_refl Hrun) as (H1 & H2 & H3).
      split; [exact H1|]. split; [|auto].
      intros St0 [= <-]. rewrite Hadd. reflexivity.
    + left. injection Hrun as <- <-. simpl.
      split; [exact Htr|]. split; [|reflexivity].
      exists St. rewrite Hadd. auto.
  - right.
    destruct (Hhost E2 eq_refl eq_refl Hrun) as (H1 & H2 & H3).
    split; [exact H1|]. split; [|auto]. intros St0 Hbad. discriminate Hbad.
Qed.

(** S1: the host add is called from the sentinel frame, and is given the
    memory of its module. *)
Lemma host_callable_runs_at_most_once_witness :
  hostRuns (Trace (Scenario.afterCall Scenario.addFunc Scenario.atCall)) =
    [(Some {| MemData := [] |}, [Scenario.i32 7; Scenario.i32 5])].
Proof.
  assert (Hrun : enterFunction Scenario.theStore Scenario.addFunc
                   Scenario.BackPos false Scenario.atCall
                 = Done (Expected Scenario.BackPos)
                     (Scenario.afterCall Scenario.addFunc Scenario.atCall))
    by (vm_compute; reflexivity).
  destruct (host_callable_runs_at_most_once Scenario.theStore Scenario.addFunc
              Scenario.addHost Scenario.BackPos false Scenario.atCall
              (Scenario.afterCall Scenario.addFunc Scenario.atCall)
              (Expected Scenario.BackPos) eq_refl Hrun)
    as (Mod & Hlive & [(_ & _ & Hbad)|(Hruns & _)]).
  - discriminate Hbad.
  - injection Hlive as <-. exact Hruns.
Defined.

(** X10. The timers after a call of a host callee, whether the callable
    succeeded or failed: without a collector there is none afterwards; after
    an accepted charge the collector is as that one charge left it, with the
    Wasm timer running and the host timer stopped; after a refused charge
    the call has failed with [CostLimitExceeded] and no timer has been
    toggled: the collector is as the refused charge left it. *)
Theorem host_call_leaves_the_timers_paired (S : StoreManager)
    (Func : FunctionInstance) (H : HostFunctionBase) (BackPos : iterator)
    (IsTailCall : bool) (E E' : Executor) (R : Expect iterator) :
  getKind Func = HostFunction H →
  enterFunction S Func BackPos IsTailCall E = Done R E' →
  match Stat E with
  | None => Stat E' = None
  | Some St =>
      let Charge := Statistics.addCost (getCost H) St in
      if Charge.1 then
        Stat E' =
          Some {| Statistics.CostLimit := Statistics.CostLimit Charge.2;
                  Statistics.CostSum := Statistics.CostSum Charge.2;
                  Statistics.WasmTimer := true;
                  Statistics.HostTimer := false |}
      else
        Stat E' = Some Charge.2 ∧ R = Unexpect ErrCode.CostLimitExceeded
  end.
Proof.
  intros Hkind Hrun.
  destruct (enterFunction_host_live _ _ _ _ _ _ _ _ Hkind Hrun)
    as (Mod & Hlive).
  destruct (enterFunction_host_run S Func H BackPos IsTailCall E Mod
              Hkind Hlive) as (E2 & _ & Hst & _ & _ & Heq).
  rewrite Heq in Hrun. clear Heq. rewrite Hst in Hrun.
  destruct (Stat E) as [St|] eqn:HS.
  - destruct (Statistics.addCost (getCost H) St) as [[] St']; simpl.
    + apply runHostFunction_state in Hrun as (-> & _). reflexivity.
    + injection Hrun as <- <-. simpl. split; reflexivity.
  - apply runHostFunction_state in Hrun as (-> & _). rewrite Hst. reflexivity.
Qed.

(** S1 with a collector at 2 of 10: the cost 5 is added. *)
Lemma host_call_leaves_the_timers_paired_witness :
  Stat (Scenario.afterCall Scenario.addFunc Scenario.funded) =
    Some {| Statistics.CostLimit := 10; Statistics.CostSum := 7;
            Statistics.WasmTimer := true; Statistics.HostTimer := false |}.
Proof.
  assert (Hrun : enterFunction Scenario.theStore Scenario.addFunc
                   Scenario.BackPos false Scenario.funded
                 = Done (Expected Scenario.BackPos)
                        (Scenario.afterCall Scenario.addFunc Scenario.funded))
    by (vm_compute; reflexivity).
  pose proof (host_call_leaves_the_timers_paired Scenario.theStore
                Scenario.addFunc Scenario.addHost Scenario.BackPos false
                Scenario.funded
                (Scenario.afterCall Scenario.addFunc Scenario.funded)
                (Expected Scenario.BackPos) eq_refl Hrun) as Hstat.
  vm_compute in Hstat. vm_compute. exact Hstat.
Defined.

(** * Further properties of the driver *)

Section ReactorFacts.
Import Driver.

Variables (stof stod : string → option Z) (absolute : string → string).
Context {VM : Type} (Ops : VMOps VM).

(** ** The argument vectors *)

Lemma typedArgs_bound (Ps : list ValType) (Rest : list string)
    (Vs : list ValVariant) (Ts : list ValType) :
  typedArgs stof stod Ps Rest = Some (Vs, Ts) →
  length Vs ≤ length Rest.
Proof.
  revert Rest Vs Ts. induction Ps as [|T Ps IH]; intros Rest Vs Ts; simpl.
  - intros [= <- <-]. simpl. lia.
  - destruct Rest as [|A Rest]; [intros [= <- <-]; simpl; lia|].
    destruct T; simpl; intros Hargs; try (apply IH in Hargs; lia).
    all: match type of Hargs with
         | (?p ≫= _) = _ =>
             destruct p as [Value|]; simpl in Hargs; [|discriminate]
         end.
    all: destruct (typedArgs stof stod Ps Rest) as [[Vs' Ts']|] eqn:Hrec;
      simpl in Hargs; [|discriminate].
    all: injection Hargs as <- <-; simpl; apply IH in Hrec; lia.
Qed.

Lemma extraArgs_length (Extra : list string) (Vs : list ValVariant)
    (Ts : list ValType) :
  extraArgs Extra = Some (Vs, Ts) →
  length Vs = length Extra ∧ length Ts = length Extra.
Proof.
  revert Vs Ts. induction Extra as [|A Extra IH]; intros Vs Ts; simpl.
  - intros [= <- <-]. auto.
  - destruct (stoll A) as [Value|]; simpl; [|discriminate].
    destruct (extraArgs Extra) as [[Vs' Ts']|]; simpl; [|discriminate].
    intros [= <- <-]. simpl. destruct (IH _ _ eq_refl). lia.
Qed.

(** X12. The two vectors handed to [VM.execute] in reactor mode have the
    same length, and hold at most one entry per command-line argument after
    the function name. *)
Theorem reactor_vectors_agree (Ps : list ValType) (Arguments : list string)
    (FuncArgs : list ValVariant) (FuncArgTypes : list ValType) :
  reactorArgs stof stod Ps Arguments = Some (FuncArgs, FuncArgTypes) →
  length FuncArgs = length FuncArgTypes
  ∧ length FuncArgs ≤ length Arguments - 1.
Proof.
  unfold reactorArgs. intros Hargs.
  destruct (typedArgs stof stod Ps (drop 1 Arguments)) as [[Vs1 Ts1]|] eqn:H1;
    simpl in Hargs; [|discriminate].
  destruct (extraArgs (drop (length Ps + 1) Arguments)) as [[Vs2 Ts2]|] eqn:H2;
    simpl in Hargs; [|discriminate].
  injection Hargs as <- <-.
  destruct (typedArgs_length _ _ _ _ _ _ H1) as [Hlen Hle].
  apply typedArgs_bound in H1. apply extraArgs_length in H2 as [H2 H2'].
  rewrite length_drop in H1, H2, H2'. rewrite !length_app. lia.
Qed.

(** The types the driver can read an argument for. *)
Lemma typedArgs_numeric (Ps : list ValType) (Rest : list string)
    (Vs : list ValVariant) (Ts : list ValType) :
  Forall (λ T, T ∈ [ValType.I32; ValType.I64; ValType.F32; ValType.F64]) Ps →
  typedArgs stof stod Ps Rest = Some (Vs, Ts) →
  Ts = take (length Rest) Ps ∧ ValTag <$> Vs = Ts.
Proof.
  intros HPs. revert Rest Vs Ts.
  induction HPs as [|T Ps HT HPs IH]; intros Rest Vs Ts; simpl.
  - intros [= <- <-]. rewrite take_nil. auto.
  - destruct Rest as [|A Rest]; [intros [= <- <-]; auto|].
    destruct T; simpl; intros Hargs;
      try (exfalso;
           repeat (apply elem_of_cons in HT as [HT|HT]; [discriminate HT|]);
           apply elem_of_nil in HT; exact HT).
    all: match type of Hargs with
         | (?p ≫= _) = _ =>
             destruct p as [Value|]; simpl in Hargs; [|discriminate]
         end.
    all: destruct (typedArgs stof stod Ps Rest) as [[Vs' Ts']|] eqn:Hrec;
      simpl in Hargs; [|discriminate].
    all: injection Hargs as <- <-; apply IH in Hrec as [-> HVs].
    all: split; [reflexivity|rewrite fmap_cons, HVs; reflexivity].
Qed.

(** X13. When every declared parameter type is [I32], [I64], [F32] or
    [F64], one value is built per argument given after the function name
    (parameters without an argument get none), the types of the values
    facing a parameter are the declared ones, in order, and the type vector
    continues with [F64] for every surplus argument. *)
Theorem reactor_numeric_signature (Ps : list ValType)
    (Arguments : list string) (FuncArgs : list ValVariant)
    (FuncArgTypes : list ValType) :
  Forall (λ T, T ∈ [ValType.I32; ValType.I64; ValType.F32; ValType.F64]) Ps →
  reactorArgs stof stod Ps Arguments = Some (FuncArgs, FuncArgTypes) →
  let Given := length Arguments - 1 in
  length FuncArgs = Given
  ∧ FuncArgTypes = take Given Ps ++ replicate (Given - length Ps) ValType.F64
  ∧ take (length Ps) (ValTag <$> FuncArgs) = take Given Ps.
Proof.
  intros HPs Hargs Given. unfold reactorArgs in Hargs.
  destruct (typedArgs stof stod Ps (drop 1 Arguments)) as [[Vs1 Ts1]|] eqn:H1;
    simpl in Hargs; [|discriminate].
  destruct (extraArgs (drop (length Ps + 1) Arguments)) as [[Vs2 Ts2]|] eqn:H2;
    simpl in Hargs; [|discriminate].
  injection Hargs as <- <-.
  destruct (typedArgs_numeric _ _ _ _ HPs H1) as [HTs HVs].
  rewrite length_drop in HTs. fold Given in HTs.
  assert (Hlen1 : length Vs1 = length Ts1)
    by (rewrite <- HVs, length_fmap; reflexivity).
  assert (HlenT : length Ts1 = Given `min` length Ps)
    by (rewrite HTs, length_take; reflexivity).
  assert (HTs2 : Ts2 = replicate (Given - length Ps) ValType.F64).
  { clear -H2. unfold Given.
    replace (length Arguments - 1 - length Ps)
      with (length (drop (length Ps + 1) Arguments))
      by (rewrite length_drop; lia).
    revert Vs2 Ts2 H2.
    induction (drop (length Ps + 1) Arguments) as [|A Extra IH];
      intros Vs2 Ts2; simpl.
    - intros [= <- <-]. reflexivity.
    - destruct (stoll A) as [Value|]; simpl; [|discriminate].
      destruct (extraArgs Extra) as [[Vs' Ts']|]; simpl; [|discriminate].
      intros [= <- <-]. f_equal. apply (IH _ _ eq_refl). }
  apply extraArgs_length in H2 as [H2 _]. rewrite length_drop in H2.
  unfold Given in *. clear Given.
  split; [rewrite length_app, Hlen1, HlenT, H2; lia|].
  split; [rewrite HTs, HTs2; reflexivity|].
  rewrite fmap_app, HVs.
  destruct (decide (length Ps ≤ length Arguments - 1)) as [Hle|Hgt].
  - rewrite take_app_le by lia. rewrite <- HTs. apply take_ge. lia.
  - destruct Vs2; [|simpl in H2; lia].
    rewrite app_nil_r, <- HTs. apply take_ge. lia.
Qed.

Lemma typedArgs_skips (Ps : list ValType) (Rest : list string) (I : nat)
    (T : ValType) (A : string) :
  Ps !! I = Some T →
  T ∉ [ValType.I32; ValType.I64; ValType.F32; ValType.F64] →
  typedArgs stof stod Ps (<[I := A]> Rest) = typedArgs stof stod Ps Rest.
Proof.
  intros HT Hskip. revert Rest I HT.
  induction Ps as [|T0 Ps IH]; intros Rest I HT; [discriminate|].
  destruct Rest as [|A0 Rest]; [reflexivity|].
  destruct I as [|I]; simpl in HT.
  - injection HT as ->. simpl.
    destruct T; try reflexivity; exfalso; apply Hskip;
      rewrite !elem_of_cons; auto 10.
  - simpl. rewrite (IH Rest I HT). reflexivity.
Qed.

(** X14. The argument facing a parameter that is not of type [I32],
    [I64], [F32] or [F64] is not read: replacing it by any other string gives
    the same argument vectors (or the same exception). *)
Theorem reference_parameter_ignores_its_argument (Ps : list ValType)
    (Arguments : list string) (I : nat) (T : ValType) (A : string) :
  Ps !! I = Some T →
  T ∉ [ValType.I32; ValType.I64; ValType.F32; ValType.F64] →
  reactorArgs stof stod Ps (<[S I := A]> Arguments)
    = reactorArgs stof stod Ps Arguments.
Proof.
  intros HT Hskip. unfold reactorArgs.
  apply lookup_lt_Some in HT as HI.
  rewrite (drop_insert_ge _ 1) by lia.
  rewrite (drop_insert_lt _ (length Ps + 1)) by lia.
  replace (S I - 1) with I by lia.
  rewrite (typedArgs_skips _ _ _ _ _ HT Hskip). reflexivity.
Qed.

Lemma to_uint32_range (V : Z) : (0 ≤ to_uint32 V < 4294967296)%Z.
Proof. unfold to_uint32. apply Z.mod_pos_bound. reflexivity. Qed.

Lemma to_uint64_range (V : Z) : (0 ≤ to_uint64 V < 18446744073709551616)%Z.
Proof. unfold to_uint64. apply Z.mod_pos_bound. reflexivity. Qed.

(** X15. Every value of the argument vector tagged [I32] holds an
    unsigned 32-bit number and every value tagged [I64] an unsigned 64-bit
    number, whatever the sign and the size of the number that was typed. *)
Theorem reactor_integers_fit_their_type (Ps : list ValType)
    (Arguments : list string) (FuncArgs : list ValVariant)
    (FuncArgTypes : list ValType) :
  reactorArgs stof stod Ps Arguments = Some (FuncArgs, FuncArgTypes) →
  Forall (λ V,
            (ValTag V = ValType.I32 → 0 ≤ ValBits V < 4294967296)%Z
            ∧ (ValTag V = ValType.I64 →
               0 ≤ ValBits V < 18446744073709551616)%Z) FuncArgs.
Proof.
  unfold reactorArgs. intros Hargs.
  destruct (typedArgs stof stod Ps (drop 1 Arguments)) as [[Vs1 Ts1]|] eqn:H1;
    simpl in Hargs; [|discriminate].
  destruct (extraArgs (drop (length Ps + 1) Arguments)) as [[Vs2 Ts2]|] eqn:H2;
    simpl in Hargs; [|discriminate].
  injection Hargs as <- _. apply Forall_app. split.
  - clear H2. revert H1. generalize (drop 1 Arguments). revert Vs1 Ts1.
    induction Ps as [|T Ps IH]; intros Vs Ts Rest; simpl.
    + intros [= <- <-]. constructor.
    + destruct Rest as [|A Rest]; [intros [= <- <-]; constructor|].
      destruct T; simpl; intros Hargs; try (apply IH in Hargs; assumption).
      all: match type of Hargs with
           | (?p ≫= _) = _ =>
               destruct p as [Value|]; simpl in Hargs; [|discriminate]
           end.
      all: destruct (typedArgs stof stod Ps Rest) as [[Vs' Ts']|] eqn:Hrec;
        simpl in Hargs; [|discriminate].
      all: injection Hargs as <- <-; apply IH in Hrec.
      all: constructor; [|exact Hrec]; simpl.
      all: split; intros Htag; try discriminate Htag.
      * apply to_uint32_range.
      * apply to_uint64_range.
  - revert H2. generalize (drop (length Ps + 1) Arguments). revert Vs2 Ts2.
    intros Vs2 Ts2 Extra. revert Vs2 Ts2.
    induction Extra as [|A Extra IH]; intros Vs Ts; simpl.
    + intros [= <- <-]. constructor.
    + destruct (stoll A) as [Value|]; simpl; [|discriminate].
      destruct (extraArgs Extra) as [[Vs' Ts']|]; simpl; [|discriminate].
      intros [= <- <-]. constructor; [|apply (IH _ _ eq_refl)]. simpl.
      split; intros Htag; [discriminate Htag|apply to_uint64_range].
Qed.

(** ** The scan of the exported functions *)

Lemma scanFunctionList_snoc (InitFunc FuncName : string)
    (L : list (string * FType)) (Func : string * FType) :
  scanFunctionList InitFunc FuncName (L ++ [Func]) =
    let Acc := scanFunctionList InitFunc FuncName L in
    if String.eqb Func.1 InitFunc then (true, Acc.2)
    else if String.eqb Func.1 FuncName then (Acc.1, Func.2)
    else Acc.
Proof. unfold scanFunctionList. rewrite foldl_app. reflexivity. Qed.

Lemma scanFunctionList_HasInit (InitFunc FuncName : string)
    (L : list (string * FType)) :
  (scanFunctionList InitFunc FuncName L).1 = true ↔ InitFunc ∈ L.*1.
Proof.
  induction L as [|Func L IH] using rev_ind.
  - simpl. split; [discriminate|]. intros Hin. by apply elem_of_nil in Hin.
  - rewrite scanFunctionList_snoc, fmap_app, elem_of_app. simpl.
    rewrite list_elem_of_singleton.
    destruct (String.eqb_spec Func.1 InitFunc) as [Heq|Hne]; simpl.
    + split; auto.
    + destruct (String.eqb Func.1 FuncName); simpl; rewrite IH;
        split; auto; intros [Hin|Heq]; auto; congruence.
Qed.

(** X16. The scan of the export list (lines 158-167): [HasInit] holds
    exactly when [_initialize] is exported; the signature is that of the last
    export named [FuncName]; it stays empty when there is no such export and
    when [FuncName] is [_initialize] itself. *)
Theorem scanFunctionList_finds_the_last_export (InitFunc FuncName : string)
    (L : list (string * FType)) :
  let Scan := scanFunctionList InitFunc FuncName L in
  let Empty := {| Params := []; Returns := [] |} in
  (Scan.1 = true ↔ InitFunc ∈ L.*1)
  ∧ (FuncName = InitFunc → Scan.2 = Empty)
  ∧ (FuncName ∉ L.*1 → Scan.2 = Empty)
  ∧ (∀ L1 L2 FuncType,
       FuncName ≠ InitFunc →
       L = L1 ++ (FuncName, FuncType) :: L2 →
       FuncName ∉ L2.*1 →
       Scan.2 = FuncType).
Proof.
  intros Scan Empty. unfold Scan.
  split; [apply scanFunctionList_HasInit|].
  split; [|split].
  - intros ->. induction L as [|Func L IH] using rev_ind; [reflexivity|].
    rewrite scanFunctionList_snoc. simpl.
    destruct (String.eqb Func.1 InitFunc); simpl; exact IH.
  - induction L as [|Func L IH] using rev_ind; [reflexivity|].
    rewrite scanFunctionList_snoc, fmap_app, not_elem_of_app. simpl.
    rewrite list_elem_of_singleton. intros [Hin Hne].
    destruct (String.eqb Func.1 InitFunc); simpl; [auto|].
    destruct (String.eqb_spec Func.1 FuncName) as [Heq|_]; [congruence|auto].
  - intros L1 L2 FuncType Hne ->.
    induction L2 as [|Func L2 IH] using rev_ind; intros Hnot.
    + rewrite scanFunctionList_snoc. simpl.
      destruct (String.eqb_spec FuncName InitFunc) as [Heq|_];
        [contradiction|].
      rewrite String.eqb_refl. reflexivity.
    + rewrite fmap_app, not_elem_of_app in Hnot. simpl in Hnot.
      rewrite list_elem_of_singleton in Hnot. destruct Hnot as [Hnot Hfn].
      rewrite app_comm_cons, app_assoc, scanFunctionList_snoc. simpl.
      destruct (String.eqb Func.1 InitFunc); simpl; [auto|].
      destruct (String.eqb_spec Func.1 FuncName) as [Heq|_]; [congruence|auto].
Qed.

(** ** The exit code in reactor mode *)

(** X17. In reactor mode the exit code is [EXIT_SUCCESS] or
    [EXIT_FAILURE], never the exit code of the WASI environment, and
    [EXIT_SUCCESS] only when a function name was given and the module was
    loaded, validated and instantiated, each step on the machine left by the
    one before. *)
Theorem reactor_mode_exit_code (CL : CommandLine) (V : VM) (Code : Z) :
  Reactor CL = true →
  isVersion CL = false →
  main stof stod absolute Ops CL V = Some Code →
  (Code = EXIT_SUCCESS ∨ Code = EXIT_FAILURE)
  ∧ (Code = EXIT_SUCCESS →
       ∃ FuncName Rest V1 V2 V3,
         Args CL = FuncName :: Rest
         ∧ loadWasm Ops V (absolute (SoName CL)) = (Expected tt, V1)
         ∧ validate Ops V1 = (Expected tt, V2)
         ∧ instantiate Ops V2 = (Expected tt, V3)).
Proof.
  intros Hreactor Hversion. unfold main, reactorMode.
  rewrite Hreactor, Hversion. simpl.
  destruct (ParseOk CL); simpl;
    [|intros [= <-]; split; [auto|discriminate]].
  destruct (Args CL) as [|FuncName Rest];
    [intros [= <-]; split; [auto|discriminate]|].
  destruct (loadWasm Ops V _) as [[[]|Err] V1] eqn:Hload;
    [|intros [= <-]; split; [auto|discriminate]].
  destruct (validate Ops V1) as [[[]|Err] V2] eqn:Hvalid;
    [|intros [= <-]; split; [auto|discriminate]].
  destruct (instantiate Ops V2) as [[[]|Err] V3] eqn:Hinst;
    [|intros [= <-]; split; [auto|discriminate]].
  intros Hcode.
  assert (Hbin : Code = EXIT_SUCCESS ∨ Code = EXIT_FAILURE).
  { revert Hcode.
    destruct (scanFunctionList _ _ _) as [[] FuncType];
      [destruct (execute Ops V3 _ [] []) as [[Vals|Err] V4]|];
      simpl; try (intros [= <-]; auto).
    all: destruct (reactorArgs _ _ _ _) as [[FuncArgs FuncArgTypes]|];
      simpl; [|discriminate].
    all: destruct (execute Ops _ FuncName _ _) as [[Vals'|Err'] V5];
      intros [= <-]; auto. }
  split; [exact Hbin|]. intros _.
  exists FuncName, Rest, V1, V2, V3. auto.
Qed.

(** ** Exceptions *)

Lemma typedArgs_None (Ps : list ValType) (Rest : list string) :
  typedArgs stof stod Ps Rest = None ↔
  ∃ I A, Rest !! I = Some A ∧
    match Ps !! I with
    | Some ValType.I32 => stol A = None
    | Some ValType.I64 => stoll A = None
    | Some ValType.F32 => stof A = None
    | Some ValType.F64 => stod A = None
    | _ => False
    end.
Proof.
  revert Rest. induction Ps as [|T Ps IH]; intros Rest.
  - simpl. split; [discriminate|]. intros (I & A & _ & Hbad).
    rewrite ?lookup_nil in Hbad. contradiction.
  - destruct Rest as [|A0 Rest].
    { simpl. split; [destruct T; discriminate|].
      intros (I & A & HA & _). rewrite lookup_nil in HA. discriminate. }
    assert (Hshift :
      (∃ I A, (A0 :: Rest) !! I = Some A ∧
         match (T :: Ps) !! I with
         | Some ValType.I32 => stol A = None
         | Some ValType.I64 => stoll A = None
         | Some ValType.F32 => stof A = None
         | Some ValType.F64 => stod A = None
         | _ => False
         end)
      ↔ match T with
        | ValType.I32 => stol A0 = None
        | ValType.I64 => stoll A0 = None
        | ValType.F32 => stof A0 = None
        | ValType.F64 => stod A0 = None
        | _ => False
        end
        ∨ typedArgs stof stod Ps Rest = None).
    { rewrite IH. split.
      - intros ([|I] & A & HA & Hbad); simpl in HA, Hbad.
        + injection HA as <-. left. exact Hbad.
        + right. eauto.
      - intros [Hbad|(I & A & HA & Hbad)].
        + exists 0, A0. split; [reflexivity|exact Hbad].
        + exists (S I), A. split; [exact HA|exact Hbad]. }
    rewrite Hshift. clear Hshift IH.
    destruct T; simpl.
    1,6,7: split; [auto|intros [[]|Hrec]; exact Hrec].
    all: match goal with
         | |- (?p ≫= _) = None ↔ _ => destruct p as [Value|]; simpl
         end.
    all: try (split; [auto|reflexivity]).
    all: destruct (typedArgs stof stod Ps Rest) as [[Vs Ts]|]; simpl.
    all: split; try discriminate; auto.
    all: intros [Hbad|Hbad]; discriminate Hbad.
Qed.

Lemma extraArgs_None (Extra : list string) :
  extraArgs Extra = None ↔ ∃ J A, Extra !! J = Some A ∧ stoll A = None.
Proof.
  induction Extra as [|A0 Extra IH]; simpl.
  - split; [discriminate|]. intros (J & A & HA & _).
    rewrite lookup_nil in HA. discriminate.
  - destruct (stoll A0) as [Value|] eqn:H0; simpl.
    + destruct (extraArgs Extra) as [[Vs Ts]|]; simpl.
      * split; [discriminate|]. intros ([|J] & A & HA & Hbad); simpl in HA.
        -- injection HA as <-. congruence.
        -- assert (Hnone : Some (Vs, Ts)
                           = @None (list ValVariant * list ValType))
             by (apply IH; eauto).
           discriminate Hnone.
      * split; [|reflexivity]. intros _.
        destruct (proj1 IH eq_refl) as (J & A & HA & Hbad).
        exists (S J), A. auto.
    + split; [|reflexivity]. intros _. exists 0, A0. auto.
Qed.

(** X18. An exception escapes the building of the argument vectors exactly
    when some word after the function name is rejected by the parser that
    reads it: [std::stol], [std::stoll], [std::stof] or [std::stod] for a
    word facing a parameter of type [I32], [I64], [F32] or [F64], and
    [std::stoll] for a surplus word; a word facing a parameter of another
    type is never the cause. *)
Theorem reactorArgs_throws_on_a_rejected_word (Ps : list ValType)
    (Arguments : list string) :
  reactorArgs stof stod Ps Arguments = None ↔
  ∃ I A, Arguments !! (S I) = Some A ∧
    match Ps !! I with
    | Some ValType.I32 => stol A = None
    | Some ValType.I64 => stoll A = None
    | Some ValType.F32 => stof A = None
    | Some ValType.F64 => stod A = None
    | Some _ => False
    | None => stoll A = None
    end.
Proof.
  unfold reactorArgs. split.
  - destruct (typedArgs stof stod Ps (drop 1 Arguments)) as [[Vs1 Ts1]|] eqn:H1;
      simpl.
    + destruct (extraArgs (drop (length Ps + 1) Arguments))
        as [[Vs2 Ts2]|] eqn:H2; simpl; [discriminate|]. intros _.
      apply extraArgs_None in H2 as (J & A & HA & Hbad).
      rewrite lookup_drop in HA.
      exists (length Ps + J), A. split.
      * rewrite <- HA. f_equal. lia.
      * rewrite lookup_ge_None_2 by lia. exact Hbad.
    + intros _. apply typedArgs_None in H1 as (I & A & HA & Hbad).
      rewrite lookup_drop in HA. exists I, A. split; [exact HA|].
      destruct (Ps !! I) as [[]|]; try exact Hbad. contradiction.
  - intros (I & A & HA & Hbad).
    destruct (typedArgs stof stod Ps (drop 1 Arguments)) as [[Vs1 Ts1]|] eqn:H1;
      simpl; [|reflexivity].
    destruct (Ps !! I) as [T|] eqn:HT.
    + exfalso.
      assert (Hnone : typedArgs stof stod Ps (drop 1 Arguments) = None).
      { apply typedArgs_None. exists I, A. rewrite lookup_drop, HT.
        split; [exact HA|]. destruct T; try exact Hbad. }
      congruence.
    + apply lookup_ge_None_1 in HT.
      assert (Hnone : extraArgs (drop (length Ps + 1) Arguments) = None).
      { apply extraArgs_None. exists (I - length Ps), A.
        rewrite lookup_drop. split; [|exact Hbad].
        rewrite <- HA. f_equal. lia. }
      rewrite Hnone. reflexivity.
Qed.

(** ** Failures before the call *)

(** X19. In reactor mode the driver exits with [EXIT_FAILURE], before any
    argument is parsed (so even when one is not a number), when no function
    name is given, when loading, validation or instantiation fails, and when
    the exported [_initialize] fails. *)
Theorem reactor_mode_setup_failure (CL : CommandLine) (V : VM) :
  ParseOk CL = true → isVersion CL = false → Reactor CL = true →
  let Loaded := loadWasm Ops V (absolute (SoName CL)) in
  let Validated := validate Ops Loaded.2 in
  let Instantiated := instantiate Ops Validated.2 in
  let V3 := Instantiated.2 in
  let Failed {A} (R : Expect A) := ∃ Err, R = Unexpect Err in
  Args CL = []
  ∨ Failed Loaded.1 ∨ Failed Validated.1 ∨ Failed Instantiated.1
  ∨ ("_initialize"%string ∈ (getFunctionList Ops V3).*1
     ∧ Failed (execute Ops V3 "_initialize" [] []).1) →
  main stof stod absolute Ops CL V = Some EXIT_FAILURE.
Proof.
  intros Hparse Hversion Hreactor Loaded Validated Instantiated V3 Failed.
  unfold main, reactorMode. rewrite Hparse, Hversion, Hreactor. simpl.
  fold Loaded. intros Hfail.
  destruct (Args CL) as [|FuncName Rest]; [reflexivity|].
  destruct Hfail as [Hbad|Hfail]; [discriminate|].
  destruct Loaded as [[[]|Err] V1] eqn:HL; [|reflexivity].
  destruct Hfail as [[Err Hbad]|Hfail]; [discriminate|].
  simpl in Validated. fold Validated.
  destruct Validated as [[[]|Err] V2] eqn:HV; [|reflexivity].
  destruct Hfail as [[Err Hbad]|Hfail]; [discriminate|].
  simpl in Instantiated. fold Instantiated.
  destruct Instantiated as [[[]|Err] V3'] eqn:HI; [|reflexivity].
  destruct Hfail as [[Err Hbad]|(Hinit & Err & Hexec)]; [discriminate|].
  simpl in V3. subst V3.
  apply (scanFunctionList_HasInit _ FuncName) in Hinit.
  destruct (scanFunctionList _ _ _) as [HasInit FuncType].
  simpl in Hinit. subst HasInit.
  destruct (execute Ops V3' _ [] []) as [R V4]. simpl in Hexec. subst R.
  reflexivity.
Qed.

End ReactorFacts.

(** [f -1 5 -2] for a function [f] of one [i32] parameter. *)
Lemma reactor_vectors_agree_witness :
  length [Driver.mkVal ValType.I32 4294967295; Driver.mkVal ValType.I64 5;
          Driver.mkVal ValType.I64 18446744073709551614]
    = length [ValType.I32; ValType.F64; ValType.F64]
  ∧ length [Driver.mkVal ValType.I32 4294967295; Driver.mkVal ValType.I64 5;
            Driver.mkVal ValType.I64 18446744073709551614]
    ≤ length ["f"; "-1"; "5"; "-2"]%string - 1.
Proof.
  apply (reactor_vectors_agree Scenario.noFloat Scenario.noFloat
           [ValType.I32] ["f"; "-1"; "5"; "-2"]%string).
  reflexivity.
Defined.

Lemma reactor_numeric_signature_witness :
  length [Driver.mkVal ValType.I32 4294967295; Driver.mkVal ValType.I64 5;
          Driver.mkVal ValType.I64 18446744073709551614] = 3
  ∧ [ValType.I32; ValType.F64; ValType.F64] =
      take 3 [ValType.I32] ++ replicate (3 - 1) ValType.F64
  ∧ take 1 (ValTag <$> [Driver.mkVal ValType.I32 4294967295;
                        Driver.mkVal ValType.I64 5;
                        Driver.mkVal ValType.I64 18446744073709551614])
    = take 3 [ValType.I32].
Proof.
  apply (reactor_numeric_signature Scenario.noFloat Scenario.noFloat
           [ValType.I32] ["f"; "-1"; "5"; "-2"]%string).
  - repeat constructor.
  - reflexivity.
Defined.

(** [g x 3] and [g y 3] for a function [g] of parameters [(funcref,
    i32)]: the word facing the reference is not read. *)
Lemma reference_parameter_ignores_its_argument_witness :
  Driver.reactorArgs Scenario.noFloat Scenario.noFloat
    [ValType.FuncRef; ValType.I32] ["g"; "y"; "3"]%string
  = Driver.reactorArgs Scenario.noFloat Scenario.noFloat
      [ValType.FuncRef; ValType.I32] ["g"; "x"; "3"]%string.
Proof.
  apply (reference_parameter_ignores_its_argument Scenario.noFloat
           Scenario.noFloat [ValType.FuncRef; ValType.I32]
           ["g"; "x"; "3"]%string 0 ValType.FuncRef "y"%string).
  - reflexivity.
  - intros Hin.
    repeat (apply elem_of_cons in Hin as [Hin|Hin]; [discriminate Hin|]).
    apply elem_of_nil in Hin. exact Hin.
Defined.

Lemma reactor_integers_fit_their_type_witness :
  Forall (λ V,
            (ValTag V = ValType.I32 → 0 ≤ ValBits V < 4294967296)%Z
            ∧ (ValTag V = ValType.I64 →
               0 ≤ ValBits V < 18446744073709551616)%Z)
    [Driver.mkVal ValType.I32 4294967295; Driver.mkVal ValType.I64 5;
     Driver.mkVal ValType.I64 18446744073709551614].
Proof.
  apply (reactor_integers_fit_their_type Scenario.noFloat Scenario.noFloat
           [ValType.I32] ["f"; "-1"; "5"; "-2"]%string
           _ [ValType.I32; ValType.F64; ValType.F64]).
  reflexivity.
Defined.

(** The signature of [f] in a module that exports [_initialize] and [f]. *)
Lemma scanFunctionList_finds_the_last_export_witness :
  (Driver.scanFunctionList "_initialize" "f"
     (Driver.getFunctionList Scenario.failingInitVM 0%Z)).2
  = {| Driver.Params := [ValType.I32]; Driver.Returns := [] |}.
Proof.
  destruct (scanFunctionList_finds_the_last_export "_initialize" "f"
              (Driver.getFunctionList Scenario.failingInitVM 0%Z))
    as (_ & _ & _ & Hlast).
  apply (Hlast [("_initialize"%string,
                 {| Driver.Params := []; Driver.Returns := [] |})] []).
  - discriminate.
  - reflexivity.
  - apply not_elem_of_nil.
Defined.

(** [f 1] on a module that exports [f]: the call succeeds. *)
Lemma reactor_mode_exit_code_witness :
  ∃ FuncName Rest V1 V2 V3,
    Driver.Args Scenario.reactorLine = FuncName :: Rest
    ∧ Driver.loadWasm Scenario.exitingVM 0%Z
        (id (Driver.SoName Scenario.reactorLine)) = (Expected tt, V1)
    ∧ Driver.validate Scenario.exitingVM V1 = (Expected tt, V2)
    ∧ Driver.instantiate Scenario.exitingVM V2 = (Expected tt, V3).
Proof.
  exact (proj2 (reactor_mode_exit_code Scenario.noFloat Scenario.noFloat id
                  Scenario.exitingVM Scenario.reactorLine 0%Z
                  Driver.EXIT_SUCCESS eq_refl eq_refl eq_refl) eq_refl).
Defined.

(** [f x] for a function [f] of one [i32] parameter: [x] is the word that
    [std::stol] rejects. *)
Lemma reactorArgs_throws_on_a_rejected_word_witness :
  ∃ I A, ["f"; "x"]%string !! (S I) = Some A ∧
    match [ValType.I32] !! I with
    | Some ValType.I32 => Driver.stol A = None
    | Some ValType.I64 => Driver.stoll A = None
    | Some ValType.F32 => Scenario.noFloat A = None
    | Some ValType.F64 => Scenario.noFloat A = None
    | Some _ => False
    | None => Driver.stoll A = None
    end.
Proof.
  exact (proj1 (reactorArgs_throws_on_a_rejected_word Scenario.noFloat
                  Scenario.noFloat [ValType.I32] ["f"; "x"]%string)
               eq_refl).
Defined.

(** [f 1] on a module whose [_initialize] fails. *)
Lemma reactor_mode_setup_failure_witness :
  Driver.main Scenario.noFloat Scenario.noFloat id Scenario.failingInitVM
    Scenario.reactorLine 0%Z = Some Driver.EXIT_FAILURE.
Proof.
  apply (reactor_mode_setup_failure Scenario.noFloat Scenario.noFloat id
           Scenario.failingInitVM Scenario.reactorLine 0%Z
           eq_refl eq_refl eq_refl).
  right. right. right. right. split.
  - simpl. apply list_elem_of_here.
  - exists ErrCode.Unreachable. reflexivity.
Defined.

(** ** The configuration *)

Section ConfigureFacts.
Import Driver.

Context {C : Type} (Ops : ConfigureOps C).

(** X20. The configuration built from the feature options (lines
    90-105) depends on the page limits through the last one given only, and
    [--enable-all] alone configures what [--enable-simd] alone does. *)
Theorem configure_depends_on (O O' : Features) (Conf : C) :
  BulkMemoryOperations O = BulkMemoryOperations O' →
  ReferenceTypes O = ReferenceTypes O' →
  (SIMD O = SIMD O' ∧ All O = All O') ∨ (SIMD O = All O' ∧ All O = SIMD O') →
  last (MemLim O) = last (MemLim O') →
  configure Ops O Conf = configure Ops O' Conf.
Proof.
  intros Hbulk Href Hsimd Hlim. unfold configure.
  rewrite Hbulk, Href.
  assert (Hpages :
    ∀ Conf0,
      (if 0 <? length (MemLim O)
       then setMaxMemoryPage Ops (List.last (MemLim O) 0%Z) Conf0 else Conf0)
      = (if 0 <? length (MemLim O')
         then setMaxMemoryPage Ops (List.last (MemLim O') 0%Z) Conf0
         else Conf0)).
  { intros Conf0. revert Hlim.
    destruct (MemLim O) as [|P Ps _] using rev_ind;
      destruct (MemLim O') as [|P' Ps' _] using rev_ind;
      rewrite ?last_snoc, ?length_app; simpl; try discriminate;
      [reflexivity|].
    intros [= ->]. rewrite !last_last.
    destruct (0 <? length Ps + 1) eqn:H1; destruct (0 <? length Ps' + 1) eqn:H2;
      try reflexivity;
      apply Nat.ltb_ge in H1 || apply Nat.ltb_ge in H2; lia. }
  rewrite Hpages.
  destruct Hsimd as [[-> ->]|[-> ->]]; [reflexivity|].
  destruct (All O'), (SIMD O'); reflexivity.
Qed.

End ConfigureFacts.

(** [--enable-simd --memory-page-limit 1 --memory-page-limit 7] and
    [--enable-all --memory-page-limit 7]. *)
Lemma configure_depends_on_witness :
  Driver.configure Scenario.configureOps
    {| Driver.BulkMemoryOperations := false; Driver.ReferenceTypes := false;
       Driver.SIMD := true; Driver.All := false;
       Driver.MemLim := [1; 7]%Z |} Scenario.defaultConfigure
  = Driver.configure Scenario.configureOps
      {| Driver.BulkMemoryOperations := false; Driver.ReferenceTypes := false;
         Driver.SIMD := false; Driver.All := true;
         Driver.MemLim := [7%Z] |} Scenario.defaultConfigure.
Proof.
  apply (configure_depends_on Scenario.configureOps);
    [reflexivity|reflexivity|right; split; reflexivity|reflexivity].
Defined.

(** ** The printed results *)

(** X21. With a result for every declared return type, the printing of
    the results (lines 219-238) is defined and writes one line per return
    type among [I32], [I64], [F32] and [F64], none for the others. *)
Theorem printResults_prints_the_numeric_results (Returns : list ValType)
    (Result : list ValVariant) (I : nat) :
  I + length Returns ≤ length Result →
  ∃ Lines,
    Driver.printResults Returns I Result = Some Lines
    ∧ length Lines =
        length (filter (λ T, T ∈ [ValType.I32; ValType.I64;
                                  ValType.F32; ValType.F64]) Returns).
Proof.
  revert I. induction Returns as [|T Returns IH]; intros I Hlen.
  - simpl. eauto.
  - simpl in Hlen. rewrite filter_cons.
    destruct (IH (S I)) as (Lines & Hrec & Hcount); [lia|].
    destruct (lookup_lt_is_Some_2 Result I) as [V HV]; [lia|].
    destruct (decide _) as [Hin|Hnot]; simpl; rewrite Hrec.
    + destruct T; simpl; rewrite ?HV; simpl;
        try (eexists; split; [reflexivity|]; simpl; rewrite Hcount;
             reflexivity).
      all: exfalso;
        repeat (apply elem_of_cons in Hin as [Hin|Hin]; [discriminate Hin|]);
        apply elem_of_nil in Hin; exact Hin.
    + destruct T; simpl;
        try (eexists; split; [reflexivity|]; simpl; exact Hcount).
      all: exfalso; apply Hnot; rewrite !elem_of_cons; auto 10.
Qed.

(** Three results for the return types [(i32, funcref, f64)]: two lines. *)
Lemma printResults_prints_the_numeric_results_witness :
  ∃ Lines,
    Driver.printResults [ValType.I32; ValType.FuncRef; ValType.F64] 0
      [Scenario.i32 1; Scenario.i32 2; Scenario.i32 3] = Some Lines
    ∧ length Lines = 2.
Proof.
  apply (printResults_prints_the_numeric_results
           [ValType.I32; ValType.FuncRef; ValType.F64]
           [Scenario.i32 1; Scenario.i32 2; Scenario.i32 3] 0).
  simpl. lia.
Defined.
